(** * BIP-0039 entropy <-> mnemonic conversion (src/bip39.cpp)

    A shallow embedding of the conversion engine of [bip39.cpp]: the
    [BIP39] session class with its constructor, [useEntropy], [wordList],
    [mnemonic], [reverse], [checksum], the static entry points [Entropy],
    [Generate], [Words], [validateEntropy], and the bit-string helpers
    [hex2bits] / [bits2hex].

    C++ calls are modelled as functions into [outcome]: a normal return, a
    thrown exception, or undefined behaviour.  The fluent builder methods
    return [*this] by value, so every method takes the session and returns
    the updated copy.

    The hash primitive [sha256_Raw], the table [Wordlist::english()] and the
    bytes of the random buffer are parameters of the model.  The helpers of
    utils.h and the classes [Wordlist] and [Mnemonic] are not part of
    bip39.cpp; they are modelled from their description and from the way
    bip39.cpp uses them. *)

From Stdlib Require Import ZArith List String Ascii Bool Lia.
From Stdlib.Strings Require Import Byte.
Import ListNotations.

Local Open Scope list_scope.
Local Open Scope string_scope.
Local Open Scope Z_scope.

(** ** Outcomes of a call *)

Inductive exn : Type :=
| MnemonicException (what : string)   (* the repository's exception *)
| invalid_argument                    (* std::invalid_argument *)
| out_of_range.                       (* std::out_of_range *)

Inductive outcome (A : Type) : Type :=
| Ok (a : A)
| Throw (e : exn)
| Undefined.

Arguments Ok {A} a.
Arguments Throw {A} e.
Arguments Undefined {A}.

Definition bind {A B : Type} (c : outcome A) (k : A -> outcome B) : outcome B :=
  match c with
  | Ok a => k a
  | Throw e => Throw e
  | Undefined => Undefined
  end.

Notation "x <- c ;; k" := (bind c (fun x => k))
  (at level 61, c at next level, right associativity).

(** The call ends in a [MnemonicException]. *)
Definition fails {A : Type} (c : outcome A) : Prop :=
  exists what, c = Throw (MnemonicException what).

(** ** Machine integers *)

(** [size_t] on the 64-bit targets of the code: arithmetic modulo 2^64. *)
Definition size_t (z : Z) : Z := z mod 2 ^ 64.

(** Conversion to [int] (32 bits, two's complement). *)
Definition to_int (z : Z) : Z := (z + 2 ^ 31) mod 2 ^ 32 - 2 ^ 31.

Definition uint32_t (z : Z) : Z := z mod 2 ^ 32.

(** A [char] read as an [int]; [char] is signed on the targets of the code. *)
Definition int_of_char (c : ascii) : Z :=
  let n := Z.of_N (N_of_ascii c) in
  if n <? 128 then n else n - 256.

Definition strlen (s : string) : Z := Z.of_nat (String.length s).

(** ** [std::bitset<N>] as an N-bit integer *)

Module bitset.

(** [bitset<N>(unsigned long long)]: the value truncated to N bits. *)
Definition of_ullong (N : nat) (v : Z) : Z := v mod 2 ^ Z.of_nat N.

Fixpoint read_bits (s : string) (acc : Z) : outcome Z :=
  match s with
  | EmptyString => Ok acc
  | String c r =>
      if Ascii.eqb c "0" then read_bits r (2 * acc)
      else if Ascii.eqb c "1" then read_bits r (2 * acc + 1)
      else Throw invalid_argument
  end.

(** [bitset<N>(const std::string&)]: the first [min N (size s)] characters
    are read, most significant bit first; any other character than '0' and
    '1' among them throws [std::invalid_argument]. *)
Definition of_string (N : nat) (s : string) : outcome Z :=
  read_bits (substring 0 N s) 0.

(** [to_string()]: exactly N characters, most significant bit first. *)
Fixpoint to_string (N : nat) (v : Z) : string :=
  match N with
  | O => EmptyString
  | S k => String (if Z.testbit v (Z.of_nat k) then "1" else "0")%char
                  (to_string k v)
  end.

Definition to_ulong (v : Z) : Z := v.

End bitset.

(** ** Helpers of utils.h *)

Module BIP39_Utils.

Definition hex_digit_value (c : ascii) : option Z :=
  let n := Z.of_N (N_of_ascii c) in
  if (48 <=? n) && (n <=? 57) then Some (n - 48)
  else if (97 <=? n) && (n <=? 102) then Some (n - 87)
  else if (65 <=? n) && (n <=? 70) then Some (n - 55)
  else None.

Definition is_hex_digit (c : ascii) : bool :=
  match hex_digit_value c with Some _ => true | None => false end.

Fixpoint all_of (p : ascii -> bool) (s : string) : bool :=
  match s with
  | EmptyString => true
  | String c r => p c && all_of p r
  end.

(** Modelled from the spec: [BIP39_Utils::isHex] (utils.h is not in src/):
    "must be valid hexadecimal"; the digits are 0-9, a-f and A-F, as
    [hexToBits] is "case-insensitive on input". *)
Definition isHex (s : string) : bool := all_of is_hex_digit s.

(** Modelled from the spec: [BIP39_Utils::hex_char_to_bin] (utils.h is not
    in src/): "each hex character maps to its 4-bit binary representation
    ... case-insensitive on input, output uses characters '0'/'1'".  The
    spec says nothing on other characters; they give the empty string. *)
Definition hex_char_to_bin (c : ascii) : string :=
  match hex_digit_value c with
  | Some v => bitset.to_string 4 v
  | None => EmptyString
  end.

(** Modelled from the spec: [BIP39_Utils::bin_str_to_hex] (utils.h is not
    in src/): "each 4-bit group maps to one hex nibble".  The spec does not
    say in which case the letters are written; this definition writes them
    in lower case, and no property below depends on that choice.  Values
    above 15 are not described; they give the empty string. *)
Definition bin_str_to_hex (j : Z) : string :=
  if (0 <=? j) && (j <? 16)
  then substring (Z.to_nat j) 1 "0123456789abcdef"
  else EmptyString.

Definition nibble (c : ascii) : Z :=
  match hex_digit_value c with Some v => v | None => 0 end.

(** Modelled from the spec: [BIP39_Utils::base16Decode] (utils.h is not in
    src/): the "byte sequence" a hex string represents, two digits per
    byte, high nibble first.  A character that is no hex digit counts as
    0 and an odd trailing digit is dropped (neither is described). *)
Fixpoint base16Decode (s : string) : string :=
  match s with
  | String hi (String lo r) =>
      String (ascii_of_N (Z.to_N (16 * nibble hi + nibble lo))) (base16Decode r)
  | _ => EmptyString
  end.

Definition hex_of_byte (c : ascii) : string :=
  let n := Z.of_N (N_of_ascii c) in
  bin_str_to_hex (n / 16) ++ bin_str_to_hex (n mod 16).

(** Modelled from the spec: [BIP39_Utils::base16Encode] (utils.h is not in
    src/): "Hex-encode the bytes". *)
Fixpoint base16Encode (s : string) : string :=
  match s with
  | EmptyString => EmptyString
  | String c r => hex_of_byte c ++ base16Encode r
  end.

(** Modelled from the spec: [BIP39_Utils::hashEquals] (utils.h is not in
    src/): an equality test of two strings "that does not leak timing
    information"; its result is that of string equality. *)
Definition hashEquals (a b : string) : bool := String.eqb a b.

End BIP39_Utils.

(** ** The wordlist collaborator *)

(** Modelled from the spec: class [Wordlist] (wordlist.h is not in src/): a
    read-only table of words that "provides indexOf(word) -> index|not-found
    and wordAt(index) -> word".  [findIndex] is negative when the word is
    absent, as [reverse] tests [index < 0]; [getWord] outside the table is
    not described and gives the empty string here.  A [Wordlist*] is an
    [option Wordlist.t], [None] being the null pointer. *)
Module Wordlist.

Record t : Type := mk { entries : list string }.

Definition empty (wl : t) : bool :=
  match entries wl with [] => true | _ => false end.

Definition getWord (wl : t) (index : Z) : string :=
  if index <? 0 then EmptyString
  else nth (Z.to_nat index) (entries wl) EmptyString.

Fixpoint find_from (l : list string) (word : string) (i : Z) : Z :=
  match l with
  | [] => -1
  | w :: r => if String.eqb w word then i else find_from r word (i + 1)
  end.

Definition findIndex (wl : t) (word : string) : Z :=
  find_from (entries wl) word 0.

End Wordlist.

(** ** The value produced by a conversion (mnemonic.h) *)

Record Mnemonic : Type := mkMnemonic {
  words : list string;
  wordsIndex : list Z;
  rawBinaryChunks : list Z;      (* std::bitset<11> each *)
  entropy : string;
  mn_wordsCount : Z              (* Mnemonic::m_wordsCount *)
}.

(** [Mnemonic()]: empty vectors, empty entropy, no word counted. *)
Definition Mnemonic_new : Mnemonic :=
  {| words := []; wordsIndex := []; rawBinaryChunks := [];
     entropy := EmptyString; mn_wordsCount := 0 |}.

(** [std::string::substr(pos, n)]: throws [std::out_of_range] when [pos] is
    beyond the end, and stops at the end of the string otherwise. *)
Definition substr (s : string) (pos n : nat) : outcome string :=
  if (String.length s <? pos)%nat then Throw out_of_range
  else Ok (substring pos n s).

(** The constructor of [std::string] from a [char] pointer, on a buffer
    that holds the given bytes and no terminator behind them: the result is
    the characters before the first NUL; when there is no NUL among the
    bytes the constructor reads behind the end of the buffer, which is
    undefined behaviour. *)
Fixpoint c_string (buffer : string) : outcome string :=
  match buffer with
  | EmptyString => Undefined
  | String c r =>
      if Ascii.eqb c zero then Ok EmptyString
      else s <- c_string r ;; Ok (String c s)
  end.

(** The words [std::getline(w, word, ' ')] extracts one after the other: a
    space ends the current word; at the end of the input a pending non-empty
    word is delivered, and an extraction that finds nothing fails, which ends
    the loop. *)
Fixpoint getline_words (word : string) (rest : string) : list string :=
  match rest with
  | EmptyString =>
      match word with EmptyString => [] | _ => [word] end
  | String c r =>
      if Ascii.eqb c " " then word :: getline_words EmptyString r
      else getline_words (word ++ String c EmptyString) r
  end.

(** ** class BIP39 *)

Module BIP39.

Import BIP39_Utils.

(** The session: the data members of the class.  The constructor does not
    set [m_wordList]: it is [None], a pointer to no table, until [wordList]
    binds one. *)
Record t : Type := mk {
  m_wordsCount : Z;
  m_overallBits : Z;
  m_checksumBits : Z;
  m_entropyBits : Z;
  m_entropy : string;
  m_checksum : string;
  m_rawBinaryChunks : list Z;       (* std::bitset<11> each *)
  m_wordList : option Wordlist.t
}.

(** [BIP39::BIP39(int wordCount)] *)
Definition BIP39 (wordCount : Z) : outcome t :=
  if (wordCount <? 12) || (wordCount >? 24) then
    Throw (MnemonicException "Mnemonic words count must be between 12-24")
  else if negb (Z.rem wordCount 3 =? 0) then
    Throw (MnemonicException "Words count must be generated in multiples of 3")
  else
    let wordsCount := wordCount in
    let overallBits := wordsCount * 11 in
    let checksumBits := Z.quot (wordsCount - 12) 3 + 4 in
    let entropyBits := overallBits - checksumBits in
    Ok {| m_wordsCount := wordsCount;
          m_overallBits := overallBits;
          m_checksumBits := checksumBits;
          m_entropyBits := entropyBits;
          m_entropy := EmptyString;
          m_checksum := EmptyString;
          m_rawBinaryChunks := [];
          m_wordList := None |}.

(** [BIP39::validateEntropy] (noexcept) *)
Definition validateEntropy (entropy : string) : bool :=
  if negb (isHex entropy) then false
  else
    let entropyBits := size_t (strlen entropy * 4) in
    if entropyBits =? 128 then true
    else if entropyBits =? 160 then true
    else if entropyBits =? 192 then true
    else if entropyBits =? 224 then true
    else if entropyBits =? 256 then true
    else false.

(** [BIP39::hex2bits] *)
Fixpoint hex2bits (hex : string) : string :=
  match hex with
  | EmptyString => EmptyString
  | String c r => hex_char_to_bin c ++ hex2bits r
  end.

(** The character [final[k]] of a group of [bits2hex].  [final] is the
    [c_str()] of the temporary [bits.substr(i, 4)], which is destroyed at
    the end of the declaration of [final]: the pointer dangles, and a read
    through it is undefined behaviour, whatever the substring held. *)
Definition final_at (final : string) (k : nat) : outcome ascii := Undefined.

(** The value [j] that [bits2hex] computes from one group. *)
Definition bits2hex_j (final : string) : outcome Z :=
  c0 <- final_at final 0 ;;
  c1 <- final_at final 1 ;;
  c2 <- final_at final 2 ;;
  c3 <- final_at final 3 ;;
  Ok (Z.lor (Z.lor (Z.lor
        (uint32_t (Z.shiftl (uint32_t (int_of_char c0 - 48)) 3))
        (uint32_t (Z.shiftl (uint32_t (int_of_char c1 - 48)) 2)))
        (uint32_t (Z.shiftl (uint32_t (int_of_char c2 - 48)) 1)))
        (uint32_t (uint32_t (int_of_char c3) - 48))).

Fixpoint bits2hex_loop (fuel : nat) (bits : string) (i : nat) (hex : string)
  : outcome string :=
  match fuel with
  | O => Ok hex
  | S fuel' =>
      if (i <? String.length bits)%nat then
        j <- bits2hex_j (substring i 4 bits) ;;
        bits2hex_loop fuel' bits (i + 4) (hex ++ bin_str_to_hex j)
      else Ok hex
  end.

(** [BIP39::bits2hex]: the loop runs at most once per character. *)
Definition bits2hex (bits : string) : outcome string :=
  bits2hex_loop (String.length bits) bits 0 EmptyString.

(** [BIP39::len_to_mask].  The data members hold small values of their
    integer type, which the conversion to [size_t] leaves as they are. *)
Definition len_to_mask (len : Z) : Z :=
  if len =? 128 then 0xf0
  else if len =? 160 then 0xf8
  else if len =? 192 then 0xfc
  else if len =? 224 then 0xfe
  else if len =? 256 then 0xff
  else 0.

(** [BIP39::wordList] *)
Definition wordList (s : t) (wordlist : option Wordlist.t) : outcome t :=
  match wordlist with
  | None => Throw (MnemonicException "Invalid wordlist - wordList()")
  | Some _ =>
      Ok {| m_wordsCount := m_wordsCount s;
            m_overallBits := m_overallBits s;
            m_checksumBits := m_checksumBits s;
            m_entropyBits := m_entropyBits s;
            m_entropy := m_entropy s;
            m_checksum := m_checksum s;
            m_rawBinaryChunks := m_rawBinaryChunks s;
            m_wordList := wordlist |}
  end.

(** One turn of the loop of [BIP39::mnemonic]. *)
Definition mnemonic_step (wl : Wordlist.t) (m : Mnemonic) (bit : Z) : Mnemonic :=
  let index := bitset.to_ulong bit in
  {| words := (words m ++ [Wordlist.getWord wl index])%list;
     wordsIndex := (wordsIndex m ++ [index])%list;
     rawBinaryChunks := (rawBinaryChunks m ++ [bit])%list;
     entropy := entropy m;
     mn_wordsCount := mn_wordsCount m + 1 |}.

(** [BIP39::mnemonic].  [m_wordList->empty()] dereferences the pointer
    whether or not a table was bound. *)
Definition mnemonic (s : t) : outcome Mnemonic :=
  if String.eqb (m_entropy s) EmptyString then
    Throw (MnemonicException "Entropy is empty")
  else
    match m_wordList s with
    | None => Undefined
    | Some wl =>
        if Wordlist.empty wl then
          Throw (MnemonicException "Wordlist is empty")
        else
          let _mnemonic :=
            {| words := []; wordsIndex := []; rawBinaryChunks := [];
               entropy := m_entropy s; mn_wordsCount := 0 |} in
          Ok (fold_left (mnemonic_step wl) (m_rawBinaryChunks s) _mnemonic)
    end.

(** The first loop of [BIP39::reverse]: [inl] is the early [return mnemonic]
    at a word the table does not hold, [inr] the end of the loop. *)
Fixpoint reverse_loop (wl : Wordlist.t) (ws : list string) (m : Mnemonic)
  : Mnemonic + Mnemonic :=
  match ws with
  | [] => inr m
  | word :: r =>
      let index := Wordlist.findIndex wl word in
      if index <? 0 then inl m
      else
        let b := bitset.of_ullong 11 index in
        reverse_loop wl r
          {| words := (words m ++ [word])%list;
             wordsIndex := (wordsIndex m ++ [index])%list;
             rawBinaryChunks := (rawBinaryChunks m ++ [b])%list;
             entropy := entropy m;
             mn_wordsCount := mn_wordsCount m + 1 |}
  end.

(** The second loop of [BIP39::reverse]. *)
Fixpoint rawBinary_of (chunks : list Z) : string :=
  match chunks with
  | [] => EmptyString
  | bit :: r => bitset.to_string 11 bit ++ rawBinary_of r
  end.

Section Collaborators.

(** [sha256_Raw] of pbkdf2_sha512/sha2.hpp: the digest of a byte string. *)
Variable sha256_Raw : list byte -> list byte.

(** [Wordlist::english()]. *)
Variable english : Wordlist.t.

(** The bytes of the buffer of the requested size that
    [generateSecureEntropy] allocates, as they are after the calls to the
    random source: what the calls wrote, and what the allocation held where
    they wrote nothing. *)
Variable random_buffer : Z -> string.

(** [BIP39::checksum] *)
Definition checksum (s : t) (entropy : string) : string :=
  let entrop := base16Decode entropy in
  let out := sha256_Raw (list_byte_of_string entrop) in
  let checksumChar := Z.of_N (Byte.to_N (hd x00 out)) in
  let mask := len_to_mask (m_entropyBits s) in
  if mask =? 0xf0 then
    bitset.to_string 4 (bitset.of_ullong 4 (Z.shiftr (Z.land checksumChar mask) 4))
  else if mask =? 0xf8 then
    bitset.to_string 5 (bitset.of_ullong 5 (Z.shiftr (Z.land checksumChar mask) 3))
  else if mask =? 0xfc then
    bitset.to_string 6 (bitset.of_ullong 6 (Z.shiftr (Z.land checksumChar mask) 2))
  else if mask =? 0xfe then
    bitset.to_string 7 (bitset.of_ullong 7 (Z.shiftr (Z.land checksumChar mask) 1))
  else if mask =? 0xff then
    bitset.to_string 8 (bitset.of_ullong 8 (Z.land checksumChar mask))
  else EmptyString.

(** The loop of [BIP39::useEntropy]; [i] grows by 11 at each turn, so the
    length of [str] bounds the number of turns. *)
Fixpoint useEntropy_loop (fuel : nat) (str : string) (i : nat)
  (chunks : list Z) : outcome (list Z) :=
  match fuel with
  | O => Ok chunks
  | S fuel' =>
      if (i <? String.length str)%nat then
        b <- bitset.of_string 11 (substring i 11 str) ;;
        useEntropy_loop fuel' str (i + 11) (chunks ++ [b])%list
      else Ok chunks
  end.

(** [BIP39::useEntropy] *)
Definition useEntropy (s : t) (entropy : string) : outcome t :=
  if negb (validateEntropy entropy) then
    Throw (MnemonicException ("Invalid Entropy: " ++ entropy))
  else
    let cs := checksum s entropy in
    let str := hex2bits entropy ++ cs in
    chunks <- useEntropy_loop (String.length str) str 0 (m_rawBinaryChunks s) ;;
    Ok {| m_wordsCount := m_wordsCount s;
          m_overallBits := m_overallBits s;
          m_checksumBits := m_checksumBits s;
          m_entropyBits := m_entropyBits s;
          m_entropy := entropy;
          m_checksum := cs;
          m_rawBinaryChunks := chunks;
          m_wordList := m_wordList s |}.

(** [BIP39::generateSecureEntropy], the branch that is not for Windows,
    from the point where the calls to the random source are over.
    [bin_rand] is built by the constructor of [std::string] from the pointer
    to the [size] bytes of the buffer, which has no terminator. *)
Definition generateSecureEntropy (s : t) : outcome t :=
  let size := m_entropyBits s / 8 in
  let bytes := substring 0 (Z.to_nat size) (random_buffer size) in
  bin_rand <- c_string bytes ;;
  let hex_rand := base16Encode bin_rand in
  useEntropy s hex_rand.

(** [BIP39::reverse] *)
Definition reverse (s : t) (ws : list string) (verifyChecksum : bool)
  : outcome Mnemonic :=
  match m_wordList s with
  | None => Undefined
  | Some wl =>
      if Wordlist.empty wl then
        Throw (MnemonicException "Wordlist is empty")
      else
        match reverse_loop wl ws Mnemonic_new with
        | inl mnemonic => Ok mnemonic
        | inr mnemonic =>
            let rawBinary := rawBinary_of (rawBinaryChunks mnemonic) in
            entropyBits <- substr rawBinary 0 (Z.to_nat (m_entropyBits s)) ;;
            checksumBits <- substr rawBinary (Z.to_nat (m_entropyBits s))
                                             (Z.to_nat (m_checksumBits s)) ;;
            hex <- bits2hex entropyBits ;;
            let mnemonic' :=
              {| words := words mnemonic;
                 wordsIndex := wordsIndex mnemonic;
                 rawBinaryChunks := rawBinaryChunks mnemonic;
                 entropy := hex;
                 mn_wordsCount := mn_wordsCount mnemonic |} in
            if verifyChecksum
               && negb (hashEquals checksumBits
                          (checksum s (entropy mnemonic')))
            then Throw (MnemonicException "Entropy checksum match failed!")
            else Ok mnemonic'
        end
  end.

(** The local [wordsCount] of [BIP39::Entropy], as the constructor
    receives it. *)
Definition Entropy_wordsCount (entropy : string) : Z :=
  let entropyBits := size_t (strlen entropy * 4) in
  let checksumBits := size_t (size_t (entropyBits - 128) / 32 + 4) in
  let wordsCount := size_t (entropyBits + checksumBits) / 11 in
  to_int wordsCount.

(** [BIP39::Entropy] *)
Definition Entropy (entropy : string) : outcome Mnemonic :=
  if negb (validateEntropy entropy) then
    Throw (MnemonicException ("Invalid Entropy: " ++ entropy))
  else
    s <- BIP39 (Entropy_wordsCount entropy) ;;
    s <- useEntropy s entropy ;;
    s <- wordList s (Some english) ;;
    mnemonic s.

(** [BIP39::Generate] *)
Definition Generate (wordCount : Z) : outcome Mnemonic :=
  s <- BIP39 wordCount ;;
  s <- generateSecureEntropy s ;;
  s <- wordList s (Some english) ;;
  mnemonic s.

(** The local [wordCount] of [BIP39::Words], as the constructor receives
    it: the size of the vector of words, converted to [int]. *)
Definition Words_wordCount (spWords : list string) : Z :=
  to_int (size_t (Z.of_nat (List.length spWords))).

(** [BIP39::Words] *)
Definition Words (phrase : string) (wordlist : option Wordlist.t)
  (verifyChecksum : bool) : outcome Mnemonic :=
  match wordlist with
  | None => Throw (MnemonicException "Invalid wordlist")
  | Some _ =>
      let spWords := getline_words EmptyString phrase in
      s <- BIP39 (Words_wordCount spWords) ;;
      s <- wordList s wordlist ;;
      reverse s spWords verifyChecksum
  end.

End Collaborators.

End BIP39.

(** ** Reference instances of the collaborators

    The conversion engine takes the hash primitive and the word table from
    outside.  For the closed examples below they are instantiated with
    SHA-256 as FIPS 180-4 defines it and with a table of 2048 distinct
    words. *)

Module SHA256.

Definition w32 (x : Z) : Z := x mod 2 ^ 32.
Definition rotr (n x : Z) : Z := Z.lor (Z.shiftr x n) (w32 (Z.shiftl x (32 - n))).
Definition add32 (x y : Z) : Z := w32 (x + y).

(** The integer [e]-th root of [x], found bit by bit below [2 ^ n]. *)
Fixpoint root_bits (e : Z) (n : nat) (x r : Z) : Z :=
  match n with
  | O => r
  | S k =>
      let c := r + 2 ^ Z.of_nat k in
      if c ^ e <=? x then root_bits e k x c else root_bits e k x r
  end.

Definition is_prime (n : nat) : bool :=
  forallb (fun d => negb (Nat.eqb (n mod d) 0)) (seq 2 (n - 2)).

(** The first 64 primes: those up to 311. *)
Definition primes : list Z := map Z.of_nat (filter is_prime (seq 2 310)).

(** The round constants: the first 32 bits of the fractional parts of the
    cube roots of the first 64 primes. *)
Definition K : list Z :=
  Eval vm_compute in
    map (fun p => w32 (root_bits 3 40 (p * 2 ^ 96) 0)) primes.

(** The initial hash value: the same of the square roots of the first 8
    primes. *)
Definition H0 : list Z :=
  Eval vm_compute in
    map (fun p => w32 (root_bits 2 40 (p * 2 ^ 64) 0)) (firstn 8 primes).

Definition ch (x y z : Z) := Z.lxor (Z.land x y) (Z.land (w32 (Z.lnot x)) z).
Definition maj (x y z : Z) := Z.lxor (Z.lxor (Z.land x y) (Z.land x z)) (Z.land y z).
Definition bsig0 x := Z.lxor (Z.lxor (rotr 2 x) (rotr 13 x)) (rotr 22 x).
Definition bsig1 x := Z.lxor (Z.lxor (rotr 6 x) (rotr 11 x)) (rotr 25 x).
Definition ssig0 x := Z.lxor (Z.lxor (rotr 7 x) (rotr 18 x)) (Z.shiftr x 3).
Definition ssig1 x := Z.lxor (Z.lxor (rotr 17 x) (rotr 19 x)) (Z.shiftr x 10).

(** Padding of the message (bytes as integers) to whole 64-byte blocks. *)
Definition pad (msg : list Z) : list Z :=
  let l := Z.of_nat (List.length msg) in
  let k := Z.to_nat ((55 - l) mod 64) in
  msg ++ [0x80] ++ repeat 0 k
      ++ map (fun i => (8 * l / 2 ^ (8 * (7 - Z.of_nat i))) mod 256) (seq 0 8).

Fixpoint words_of (fuel : nat) (bs : list Z) : list Z :=
  match fuel, bs with
  | S f, a :: b :: c :: d :: r => (((a * 256 + b) * 256 + c) * 256 + d) :: words_of f r
  | _, _ => []
  end.

(** The message schedule, newest word first. *)
Fixpoint schedule (n : nat) (w : list Z) : list Z :=
  match n with
  | O => w
  | S n' =>
      let x := add32 (add32 (ssig1 (nth 1 w 0)) (nth 6 w 0))
                     (add32 (ssig0 (nth 14 w 0)) (nth 15 w 0)) in
      schedule n' (x :: w)
  end.

Definition round (st : list Z) (kw : Z * Z) : list Z :=
  match st with
  | [a; b; c; d; e; f; g; h] =>
      let t1 := add32 (add32 (add32 h (bsig1 e)) (add32 (ch e f g) (fst kw))) (snd kw) in
      let t2 := add32 (bsig0 a) (maj a b c) in
      [add32 t1 t2; a; b; c; add32 d t1; e; f; g]
  | _ => st
  end.

Definition compress (h : list Z) (block : list Z) : list Z :=
  let w := rev (schedule 48 (rev block)) in
  let st := fold_left round (combine K w) h in
  map (fun p => add32 (fst p) (snd p)) (combine h st).

Fixpoint blocks (fuel : nat) (ws : list Z) (h : list Z) : list Z :=
  match fuel with
  | O => h
  | S f =>
      match ws with
      | [] => h
      | _ => blocks f (skipn 16 ws) (compress h (firstn 16 ws))
      end
  end.

Definition bytes_of_word (x : Z) : list Z :=
  [x / 2 ^ 24; (x / 2 ^ 16) mod 256; (x / 2 ^ 8) mod 256; x mod 256].

Definition digest (msg : list byte) : list byte :=
  let bs := pad (map (fun b => Z.of_N (Byte.to_N b)) msg) in
  let ws := words_of (List.length bs) bs in
  let h := blocks (List.length ws) ws H0 in
  map (fun z => match Byte.of_N (Z.to_N z) with Some b => b | None => x00 end)
      (flat_map bytes_of_word h).

End SHA256.

(** A table of 2048 distinct words: word [i] is the letter w followed by the
    11 binary digits of [i]. *)
Definition sample_wordlist : Wordlist.t :=
  Wordlist.mk
    (map (fun i => String "w" (bitset.to_string 11 (Z.of_nat i))) (seq 0 2048)).

Definition no_random : Z -> string := fun _ => EmptyString.

(** * Properties *)

(** ** Vocabulary of the statements *)

(** The contract on a word count: between 12 and 24, a multiple of 3. *)
Definition valid_wordCount (wordCount : Z) : Prop :=
  12 <= wordCount <= 24 /\ exists k, wordCount = 3 * k.

(** The table of word counts and entropy bit lengths. *)
Definition width_table : list (Z * Z) :=
  [(12, 128); (15, 160); (18, 192); (21, 224); (24, 256)].

Definition entropy_lengths : list Z := [128; 160; 192; 224; 256].

(** The characters of hexadecimal notation. *)
Definition hex_chars : list ascii :=
  list_ascii_of_string "0123456789abcdefABCDEF".

Definition hex_string (s : string) : Prop :=
  Forall (fun c => In c hex_chars) (list_ascii_of_string s).

(** The digits of [v] in base 2, lowest [w] of them, padded with zeros on
    the left to [w] characters. *)
Fixpoint binary_digits (w : nat) (v : Z) : string :=
  match w with
  | O => EmptyString
  | S k => binary_digits k (v / 2)
           ++ String (if Z.odd v then "1" else "0")%char EmptyString
  end.

(** The first byte of the digest of the bytes a hex string stands for. *)
Definition digest0 (sha256_Raw : list byte -> list byte) (entropy : string) : Z :=
  Z.of_N (Byte.to_N
    (hd x00 (sha256_Raw (list_byte_of_string (BIP39_Utils.base16Decode entropy))))).

(** 128 zero bits. *)
Definition zero_entropy : string := "00000000000000000000000000000000".

(** Strings of binary digits and the number one denotes, most significant
    digit first, continuing from [acc]. *)
Definition is_bit (c : ascii) : bool := Ascii.eqb c "0" || Ascii.eqb c "1".

Definition binary (s : string) : Prop := BIP39_Utils.all_of is_bit s = true.

Fixpoint bits_value (s : string) (acc : Z) : Z :=
  match s with
  | EmptyString => acc
  | String c r => bits_value r (2 * acc + (if Ascii.eqb c "1" then 1 else 0))
  end.

(** A word index fits 11 bits. *)
Definition is_WordIndex (index : Z) : Prop := 0 <= index <= 2047.

(** The encoding pipeline on a session: [useEntropy], [wordList],
    [mnemonic]. *)
Definition encode (sha256_Raw : list byte -> list byte) (s : BIP39.t)
  (entropy : string) (wordlist : Wordlist.t) : outcome Mnemonic :=
  s <- BIP39.useEntropy sha256_Raw s entropy ;;
  s <- BIP39.wordList s (Some wordlist) ;;
  BIP39.mnemonic s.

(** The session that [BIP39(12)] builds. *)
Definition session_12 : BIP39.t :=
  {| BIP39.m_wordsCount := 12;
     BIP39.m_overallBits := 132;
     BIP39.m_checksumBits := 4;
     BIP39.m_entropyBits := 128;
     BIP39.m_entropy := EmptyString;
     BIP39.m_checksum := EmptyString;
     BIP39.m_rawBinaryChunks := [];
     BIP39.m_wordList := None |}.

(** 160 zero bits. *)
Definition zero_entropy_160 : string :=
  "0000000000000000000000000000000000000000".

(** What [reverse] has gathered after the words [pre], all in the table. *)
Definition decoded_prefix (wl : Wordlist.t) (pre : list string) : Mnemonic :=
  {| words := pre;
     wordsIndex := map (Wordlist.findIndex wl) pre;
     rawBinaryChunks :=
       map (fun w => bitset.of_ullong 11 (Wordlist.findIndex wl w)) pre;
     entropy := EmptyString;
     mn_wordsCount := Z.of_nat (List.length pre) |}.

(** Twelve words, the second of which [sample_wordlist] does not hold. *)
Definition phrase_unknown_word : string :=
  "w00000000001 zzz w00000000000 w00000000000 w00000000000 w00000000000 w00000000000 w00000000000 w00000000000 w00000000000 w00000000000 w00000000000".

(** A word of a phrase: not empty, without a space. *)
Definition is_word (w : string) : bool :=
  negb (String.eqb w EmptyString)
  && BIP39_Utils.all_of (fun c => negb (Ascii.eqb c " ")) w.

(** A table as the spec describes it: 2048 distinct entries, each a word. *)
Definition wordlist_wf (wl : Wordlist.t) : Prop :=
  List.length (Wordlist.entries wl) = 2048%nat
  /\ NoDup (Wordlist.entries wl)
  /\ Forall (fun w => is_word w = true) (Wordlist.entries wl).

(** The phrase of a sequence of words: the words with one space between. *)
Definition phrase_of (ws : list string) : string := String.concat " " ws.

(** A hex string with its letters in lower case. *)
Definition tolower (c : ascii) : ascii :=
  let n := N_of_ascii c in
  if (65 <=? n)%N && (n <=? 90)%N then ascii_of_N (n + 32) else c.

Fixpoint lowercase (s : string) : string :=
  match s with
  | EmptyString => EmptyString
  | String c r => String (tolower c) (lowercase r)
  end.

(** 128 bits of entropy written with letters of both cases. *)
Definition mixed_case_entropy : string := "aAbBcCdDeEfF00112233445566778899".

(** 128 bits of entropy in lower case (a BIP-0039 test vector). *)
Definition sample_entropy : string := "7f7f7f7f7f7f7f7f7f7f7f7f7f7f7f7f".

(** A decidable test of [NoDup] on strings. *)
Fixpoint distinct (l : list string) : bool :=
  match l with
  | [] => true
  | w :: r => negb (existsb (String.eqb w) r) && distinct r
  end.

(** The session after [wordList] has bound a table. *)
Definition with_wordList (s : BIP39.t) (wl : Wordlist.t) : BIP39.t :=
  {| BIP39.m_wordsCount := BIP39.m_wordsCount s;
     BIP39.m_overallBits := BIP39.m_overallBits s;
     BIP39.m_checksumBits := BIP39.m_checksumBits s;
     BIP39.m_entropyBits := BIP39.m_entropyBits s;
     BIP39.m_entropy := BIP39.m_entropy s;
     BIP39.m_checksum := BIP39.m_checksum s;
     BIP39.m_rawBinaryChunks := BIP39.m_rawBinaryChunks s;
     BIP39.m_wordList := Some wl |}.

(** The session of 24 words that [BIP39(24)] builds. *)
Definition session_24 : BIP39.t :=
  {| BIP39.m_wordsCount := 24;
     BIP39.m_overallBits := 264;
     BIP39.m_checksumBits := 8;
     BIP39.m_entropyBits := 256;
     BIP39.m_entropy := EmptyString;
     BIP39.m_checksum := EmptyString;
     BIP39.m_rawBinaryChunks := [];
     BIP39.m_wordList := None |}.

(** Three words of [sample_wordlist]. *)
Definition three_words : list string :=
  ["w00000000000"; "w00000000001"; "w00000000010"].

(** The phrase of word 0 eleven times and then word 3: the canonical vector
    of 128 zero bits. *)
Definition phrase_zero : string :=
  phrase_of (map (Wordlist.getWord sample_wordlist)
                 [0; 0; 0; 0; 0; 0; 0; 0; 0; 0; 0; 3]).

(** Buffers of the random source.  Sixteen bytes without a zero byte;
    sixteen bytes with a zero byte after the third; twenty bytes with a
    zero byte after the sixteenth. *)
Definition buffer_no_zero : Z -> string := fun _ => "0123456789abcdef".

Definition buffer_zero_at_3 : Z -> string :=
  fun _ => "abc" ++ String zero "0123456789ab".

Definition buffer_zero_at_16 : Z -> string :=
  fun _ => "0123456789abcdef" ++ String zero "xyz".

(** Six times word 0 of [sample_wordlist]. *)
Definition six_words : list string :=
  map (Wordlist.getWord sample_wordlist) [0; 0; 0; 0; 0; 0].

Ltac each_wordCount H :=
  destruct H as [-> | [-> | [-> | [-> | ->]]]].

Ltac each_ascii c :=
  destruct c as [[] [] [] [] [] [] [] []].

(** ** Known answers *)

(** SHA-256 of the empty message and of sixteen zero bytes (first bytes). *)
Example SHA256_empty :
  map Byte.to_N (firstn 4 (SHA256.digest [])) = [227; 176; 196; 66]%N.
Proof. vm_compute. reflexivity. Qed.

Example SHA256_zero_entropy :
  map Byte.to_N
    (firstn 4 (SHA256.digest
                 (list_byte_of_string (BIP39_Utils.base16Decode zero_entropy))))
  = [55; 71; 8; 255]%N.
Proof. vm_compute. reflexivity. Qed.

(** The canonical vector: 128 zero bits give eleven times word 0 ("abandon")
    and then word 3 ("about"). *)
Example Entropy_zero_vector :
  exists m,
    BIP39.Entropy SHA256.digest sample_wordlist zero_entropy = Ok m
    /\ wordsIndex m = [0; 0; 0; 0; 0; 0; 0; 0; 0; 0; 0; 3]
    /\ mn_wordsCount m = 12
    /\ entropy m = zero_entropy.
Proof. eexists. split; [vm_compute; reflexivity|]. repeat split. Qed.

(** The vector 7f7f...7f: "legal winner thank year wave sausage worth useful
    legal winner thank yellow", by the indices of these words. *)
Example Entropy_7f_vector :
  exists m,
    BIP39.Entropy SHA256.digest sample_wordlist sample_entropy = Ok m
    /\ wordsIndex m
       = [1019; 2015; 1790; 2039; 1983; 1533; 2031; 1919; 1019; 2015; 1790;
          2040].
Proof. eexists. split; [vm_compute; reflexivity|]. reflexivity. Qed.

Example getline_words_spaces :
  getline_words EmptyString " a b  c " = [""; "a"; "b"; ""; "c"].
Proof. reflexivity. Qed.

Example bits2hex_example : BIP39.bits2hex "0000000100101111" = Undefined.
Proof. reflexivity. Qed.

Example c_string_example :
  c_string ("ab" ++ String zero "cd") = Ok "ab" /\ c_string "abcd" = Undefined.
Proof. split; reflexivity. Qed.

Example hex2bits_example : BIP39.hex2bits "0aF" = "000010101111".
Proof. reflexivity. Qed.

(** ** The constructor *)

Lemma wordCount_cases (wordCount : Z) :
  12 <= wordCount <= 24 ->
  wordCount = 12 \/ wordCount = 13 \/ wordCount = 14 \/ wordCount = 15 \/
  wordCount = 16 \/ wordCount = 17 \/ wordCount = 18 \/ wordCount = 19 \/
  wordCount = 20 \/ wordCount = 21 \/ wordCount = 22 \/ wordCount = 23 \/
  wordCount = 24.
Proof. lia. Qed.

Lemma valid_wordCount_cases (wordCount : Z) :
  valid_wordCount wordCount <->
  wordCount = 12 \/ wordCount = 15 \/ wordCount = 18 \/ wordCount = 21 \/
  wordCount = 24.
Proof.
  unfold valid_wordCount. split.
  - intros [Hr [k Hk]]. lia.
  - intros H. split; [lia|].
    exists (wordCount / 3).
    destruct H as [-> | [-> | [-> | [-> | ->]]]]; reflexivity.
Qed.

Lemma BIP39_valid (wordCount : Z) :
  valid_wordCount wordCount ->
  BIP39.BIP39 wordCount =
  Ok {| BIP39.m_wordsCount := wordCount;
        BIP39.m_overallBits := wordCount * 11;
        BIP39.m_checksumBits := (wordCount - 12) / 3 + 4;
        BIP39.m_entropyBits := wordCount * 11 - ((wordCount - 12) / 3 + 4);
        BIP39.m_entropy := EmptyString;
        BIP39.m_checksum := EmptyString;
        BIP39.m_rawBinaryChunks := [];
        BIP39.m_wordList := None |}.
Proof.
  intros H. apply valid_wordCount_cases in H.
  each_wordCount H; reflexivity.
Qed.

Lemma BIP39_invalid (wordCount : Z) :
  ~ valid_wordCount wordCount -> fails (BIP39.BIP39 wordCount).
Proof.
  intros H. unfold BIP39.BIP39.
  destruct (wordCount <? 12) eqn:Hlo; [eexists; reflexivity|].
  destruct (wordCount >? 24) eqn:Hhi; [eexists; reflexivity|].
  cbn [orb].
  destruct (Z.rem wordCount 3 =? 0) eqn:Hrem; [|eexists; reflexivity].
  exfalso. apply H. apply valid_wordCount_cases.
  assert (Hr : 12 <= wordCount <= 24) by lia.
  apply wordCount_cases in Hr.
  repeat (destruct Hr as [-> | Hr]; [first [discriminate Hrem | tauto]|]).
  subst. tauto.
Qed.

Lemma BIP39_inv (wordCount : Z) (s : BIP39.t) :
  BIP39.BIP39 wordCount = Ok s -> valid_wordCount wordCount.
Proof.
  intros H.
  destruct (Z.eq_dec wordCount 12) as [->|]; [apply valid_wordCount_cases; tauto|].
  destruct (Z.eq_dec wordCount 15) as [->|]; [apply valid_wordCount_cases; tauto|].
  destruct (Z.eq_dec wordCount 18) as [->|]; [apply valid_wordCount_cases; tauto|].
  destruct (Z.eq_dec wordCount 21) as [->|]; [apply valid_wordCount_cases; tauto|].
  destruct (Z.eq_dec wordCount 24) as [->|]; [apply valid_wordCount_cases; tauto|].
  assert (Hn : ~ valid_wordCount wordCount).
  { rewrite valid_wordCount_cases. lia. }
  destruct (BIP39_invalid _ Hn) as [what Hw]. congruence.
Qed.

Lemma bind_fails {A B : Type} (c : outcome A) (k : A -> outcome B) :
  fails c -> fails (bind c k).
Proof. intros [what ->]. exists what. reflexivity. Qed.

Section Contract.

Variable sha256_Raw : list byte -> list byte.
Variable english : Wordlist.t.
Variable bin_rand_of : Z -> string.

(** C6: a word count outside [12,24] or not a multiple of 3 makes the
    constructor throw, and with it [Generate] and the decoding of a phrase
    of that many words; a word count in [12,24] that is a multiple of 3
    yields a session. *)
Theorem C6_wordCount_contract (wordCount : Z) :
  (~ valid_wordCount wordCount ->
     fails (BIP39.BIP39 wordCount)
     /\ fails (BIP39.Generate sha256_Raw english bin_rand_of wordCount)
     /\ forall phrase wordlist verifyChecksum,
          BIP39.Words_wordCount (getline_words EmptyString phrase) = wordCount ->
          fails (BIP39.Words sha256_Raw phrase wordlist verifyChecksum))
  /\ (valid_wordCount wordCount ->
        exists s, BIP39.BIP39 wordCount = Ok s
                  /\ BIP39.m_wordsCount s = wordCount).
Proof.
  split.
  - intros H. pose proof (BIP39_invalid _ H) as Hf.
    split; [exact Hf|]. split.
    + unfold BIP39.Generate. apply bind_fails. exact Hf.
    + intros phrase wordlist verifyChecksum Hc. unfold BIP39.Words.
      destruct wordlist; [|eexists; reflexivity].
      apply bind_fails. rewrite Hc. exact Hf.
  - intros H. rewrite (BIP39_valid _ H). eexists. split; reflexivity.
Qed.

End Contract.

(** The derived widths, in both directions. *)
Lemma width_table_left_unique (wc eb eb' : Z) :
  In (wc, eb) width_table -> In (wc, eb') width_table -> eb = eb'.
Proof.
  unfold width_table. cbn [In]. intros H H'.
  repeat (destruct H as [H | H]; [inversion H; subst; clear H|]);
    try contradiction;
    repeat (destruct H' as [H' | H']; [inversion H'; subst; clear H'|]);
    try contradiction; try reflexivity; try lia.
Qed.

Lemma width_table_right_unique (wc wc' eb : Z) :
  In (wc, eb) width_table -> In (wc', eb) width_table -> wc = wc'.
Proof.
  unfold width_table. cbn [In]. intros H H'.
  repeat (destruct H as [H | H]; [inversion H; subst; clear H|]);
    try contradiction;
    repeat (destruct H' as [H' | H']; [inversion H'; subst; clear H'|]);
    try contradiction; try reflexivity; try lia.
Qed.

Lemma BIP39_entropyBits (wordCount : Z) (s : BIP39.t) :
  BIP39.BIP39 wordCount = Ok s ->
  In (wordCount, BIP39.m_entropyBits s) width_table.
Proof.
  intros H. pose proof (BIP39_inv _ _ H) as Hv.
  rewrite (BIP39_valid _ Hv) in H. inversion H; subst; clear H.
  apply valid_wordCount_cases in Hv. cbn [BIP39.m_entropyBits].
  each_wordCount Hv; vm_compute; tauto.
Qed.

(** ** Entropy validation *)

Lemma is_hex_digit_spec (c : ascii) :
  BIP39_Utils.is_hex_digit c = existsb (Ascii.eqb c) hex_chars.
Proof. each_ascii c; reflexivity. Qed.

Lemma is_hex_digit_In (c : ascii) :
  BIP39_Utils.is_hex_digit c = true <-> In c hex_chars.
Proof.
  rewrite is_hex_digit_spec, existsb_exists. split.
  - intros [x [Hin Heq]]. apply Ascii.eqb_eq in Heq. subst. exact Hin.
  - intros Hin. exists c. split; [exact Hin | apply Ascii.eqb_refl].
Qed.

Lemma isHex_hex_string (s : string) :
  BIP39_Utils.isHex s = true <-> hex_string s.
Proof.
  unfold BIP39_Utils.isHex, hex_string.
  induction s as [|c r IH]; cbn [BIP39_Utils.all_of list_ascii_of_string].
  - split; [constructor | reflexivity].
  - rewrite andb_true_iff, IH, is_hex_digit_In. split.
    + intros [Hc Hr]. constructor; assumption.
    + intros H. inversion H; subst. split; assumption.
Qed.

Lemma strlen_nonneg (s : string) : 0 <= strlen s.
Proof. unfold strlen. lia. Qed.

Lemma size_t_small (z : Z) : 0 <= z < 2 ^ 64 -> size_t z = z.
Proof. intros H. unfold size_t. apply Z.mod_small. exact H. Qed.

Lemma validateEntropy_spec (s : string) :
  strlen s < 2 ^ 62 ->
  (BIP39.validateEntropy s = true <->
   BIP39_Utils.isHex s = true /\ In (4 * strlen s) entropy_lengths).
Proof.
  intros Hlen. pose proof (strlen_nonneg s) as H0.
  unfold BIP39.validateEntropy, entropy_lengths.
  rewrite size_t_small by lia. cbn [In].
  destruct (BIP39_Utils.isHex s); cbn [negb].
  - repeat match goal with
           | |- context [?a =? ?b] => destruct (Z.eqb_spec a b)
           end; split; intros H; try reflexivity; try discriminate;
      try (split; [reflexivity | lia]); try (exfalso; lia).
  - split; [discriminate | intros [H _]; discriminate].
Qed.

(** C7: [validateEntropy] is a total function into [bool]; on a string of a
    length that [std::string] can hold it answers [true] exactly when every
    character is a hexadecimal digit and four times the length is one of
    128, 160, 192, 224, 256. *)
Theorem C7_validateEntropy (s : string) :
  strlen s < 2 ^ 62 ->
  (BIP39.validateEntropy s = true \/ BIP39.validateEntropy s = false)
  /\ (BIP39.validateEntropy s = true <->
      hex_string s /\ In (4 * strlen s) entropy_lengths).
Proof.
  intros Hlen. split.
  - destruct (BIP39.validateEntropy s); [left | right]; reflexivity.
  - rewrite (validateEntropy_spec s Hlen), isHex_hex_string. reflexivity.
Qed.

(** C7 at 128 zero bits. *)
Lemma C7_validateEntropy_witness :
  strlen zero_entropy < 2 ^ 62
  /\ (BIP39.validateEntropy zero_entropy = true <->
      hex_string zero_entropy /\ In (4 * strlen zero_entropy) entropy_lengths).
Proof.
  assert (H : strlen zero_entropy < 2 ^ 62) by (vm_compute; reflexivity).
  split; [exact H | exact (proj2 (C7_validateEntropy zero_entropy H))].
Defined.

(** C6 at the word counts 13 and 15. *)
Lemma C6_wordCount_contract_witness :
  fails (BIP39.BIP39 13)
  /\ exists s, BIP39.BIP39 15 = Ok s /\ BIP39.m_wordsCount s = 15.
Proof.
  split.
  - apply (proj1 (C6_wordCount_contract SHA256.digest sample_wordlist no_random 13)).
    unfold valid_wordCount. intros [_ [k Hk]]. lia.
  - apply (proj2 (C6_wordCount_contract SHA256.digest sample_wordlist no_random 15)).
    unfold valid_wordCount. split; [lia | exists 5; reflexivity].
Defined.

(** ** The width table *)

Lemma validateEntropy_lengths (entropy : string) :
  BIP39.validateEntropy entropy = true ->
  In (size_t (strlen entropy * 4)) entropy_lengths.
Proof.
  unfold BIP39.validateEntropy, entropy_lengths. cbn [In].
  destruct (BIP39_Utils.isHex entropy); cbn [negb]; [|discriminate].
  repeat match goal with
         | |- context [?a =? ?b] => destruct (Z.eqb_spec a b)
         end; intros H; try discriminate; lia.
Qed.

Lemma Entropy_wordsCount_table (entropy : string) :
  BIP39.validateEntropy entropy = true ->
  In (BIP39.Entropy_wordsCount entropy, size_t (strlen entropy * 4)) width_table.
Proof.
  intros H. apply validateEntropy_lengths in H.
  unfold BIP39.Entropy_wordsCount.
  unfold entropy_lengths in H. cbn [In] in H.
  destruct H as [H | [H | [H | [H | [H | []]]]]]; rewrite <- H;
    vm_compute; tauto.
Qed.

(** C4: the constructor accepts exactly the word counts 12, 15, 18, 21, 24
    and derives from each the widths of the table; every entry of the table
    is reached; the table pairs word counts and entropy lengths one to one;
    and [Entropy] derives from an accepted entropy the word count the table
    gives for its bit length. *)
Theorem C4_width_table :
  (forall wordCount s,
      BIP39.BIP39 wordCount = Ok s ->
      BIP39.m_wordsCount s = wordCount
      /\ BIP39.m_overallBits s = wordCount * 11
      /\ BIP39.m_checksumBits s = (wordCount - 12) / 3 + 4
      /\ BIP39.m_entropyBits s = BIP39.m_overallBits s - BIP39.m_checksumBits s
      /\ In (wordCount, BIP39.m_entropyBits s) width_table)
  /\ (forall wordCount entropyBits,
      In (wordCount, entropyBits) width_table ->
      exists s, BIP39.BIP39 wordCount = Ok s
                /\ BIP39.m_entropyBits s = entropyBits)
  /\ (forall wc wc' eb eb',
      In (wc, eb) width_table -> In (wc', eb') width_table ->
      (wc = wc' <-> eb = eb'))
  /\ (forall entropy,
      BIP39.validateEntropy entropy = true ->
      In (BIP39.Entropy_wordsCount entropy, size_t (strlen entropy * 4))
         width_table).
Proof.
  split; [|split; [|split]].
  - intros wordCount s H.
    pose proof (BIP39_entropyBits _ _ H) as Ht.
    pose proof (BIP39_inv _ _ H) as Hv.
    rewrite (BIP39_valid _ Hv) in H. inversion H; subst; clear H.
    cbn in *. repeat split; try reflexivity. exact Ht.
  - intros wordCount entropyBits H.
    assert (Hv : valid_wordCount wordCount).
    { apply valid_wordCount_cases. unfold width_table in H. cbn [In] in H.
      repeat (destruct H as [H | H]; [inversion H; subst; tauto|]).
      contradiction. }
    rewrite (BIP39_valid _ Hv). eexists. split; [reflexivity|].
    apply (width_table_left_unique wordCount); [|exact H].
    apply (BIP39_entropyBits wordCount). apply BIP39_valid. exact Hv.
  - intros wc wc' eb eb' H H'. split; intros ->.
    + eapply width_table_left_unique; eassumption.
    + eapply width_table_right_unique; eassumption.
  - apply Entropy_wordsCount_table.
Qed.

(** C4 at 12 words and 128 bits. *)
Lemma C4_width_table_witness :
  (exists s, BIP39.BIP39 12 = Ok s /\ BIP39.m_entropyBits s = 128)
  /\ In (BIP39.Entropy_wordsCount zero_entropy,
         size_t (strlen zero_entropy * 4)) width_table.
Proof.
  destruct C4_width_table as [_ [Hreach [_ Hent]]]. split.
  - apply Hreach. vm_compute. tauto.
  - apply Hent. vm_compute. reflexivity.
Defined.

(** ** The null wordlist *)

(** C10: with a null wordlist pointer [Words] throws "Invalid wordlist",
    whatever the phrase and the flag: the outcome is neither a result nor
    undefined behaviour, and does not depend on the phrase. *)
Theorem C10_Words_null_wordlist (sha256_Raw : list byte -> list byte)
  (phrase : string) (verifyChecksum : bool) :
  BIP39.Words sha256_Raw phrase None verifyChecksum
  = Throw (MnemonicException "Invalid wordlist").
Proof. reflexivity. Qed.

(** ** The checksum *)

Lemma to_string_binary_digits (w : nat) (v : Z) :
  bitset.to_string w v = binary_digits w v.
Proof.
  revert v. induction w as [|k IH]; intros v; [reflexivity|].
  cbn [binary_digits]. rewrite <- IH. clear IH.
  revert v. induction k as [|k IHk]; intros v.
  - cbn [bitset.to_string]. rewrite Z.bit0_odd. reflexivity.
  - change (bitset.to_string (S (S k)) v)
      with (String (if Z.testbit v (Z.of_nat (S k)) then "1" else "0")%char
                   (bitset.to_string (S k) v)).
    rewrite IHk.
    change (bitset.to_string (S k) (v / 2))
      with (String (if Z.testbit (v / 2) (Z.of_nat k) then "1" else "0")%char
                   (bitset.to_string k (v / 2))).
    cbn [append].
    replace (Z.testbit v (Z.of_nat (S k))) with (Z.testbit (v / 2) (Z.of_nat k)).
    + reflexivity.
    + rewrite <- Z.div2_div, Z.div2_spec, Z.shiftr_spec by lia.
      f_equal. lia.
Qed.

Lemma to_string_length (w : nat) (v : Z) :
  String.length (bitset.to_string w v) = w.
Proof. induction w as [|k IH]; cbn; [reflexivity | rewrite IH; reflexivity]. Qed.

Lemma checksum_byte (b : byte) :
  let d := Z.of_N (Byte.to_N b) in
  bitset.of_ullong 4 (Z.shiftr (Z.land d 0xf0) 4) = Z.shiftr d 4
  /\ bitset.of_ullong 5 (Z.shiftr (Z.land d 0xf8) 3) = Z.shiftr d 3
  /\ bitset.of_ullong 6 (Z.shiftr (Z.land d 0xfc) 2) = Z.shiftr d 2
  /\ bitset.of_ullong 7 (Z.shiftr (Z.land d 0xfe) 1) = Z.shiftr d 1
  /\ bitset.of_ullong 8 (Z.land d 0xff) = Z.shiftr d 0.
Proof. destruct b; vm_compute; repeat split. Qed.

Section Checksum.

Variable sha256_Raw : list byte -> list byte.

Lemma checksum_supported (s : BIP39.t) (entropy : string) :
  In (BIP39.m_entropyBits s) entropy_lengths ->
  let w := BIP39.m_entropyBits s / 32 in
  BIP39.checksum sha256_Raw s entropy
  = bitset.to_string (Z.to_nat w) (Z.shiftr (digest0 sha256_Raw entropy) (8 - w)).
Proof.
  intros H. unfold BIP39.checksum. fold (digest0 sha256_Raw entropy).
  unfold digest0.
  destruct (checksum_byte
              (hd x00 (sha256_Raw (list_byte_of_string
                                     (BIP39_Utils.base16Decode entropy)))))
    as [H4 [H5 [H6 [H7 H8]]]].
  unfold entropy_lengths in H. cbn [In] in H.
  destruct H as [H | [H | [H | [H | [H | []]]]]]; rewrite <- H; cbn zeta;
    cbn [BIP39.len_to_mask Z.eqb Pos.eqb];
    [rewrite H4 | rewrite H5 | rewrite H6 | rewrite H7 | rewrite H8];
    reflexivity.
Qed.

(** C5, as the code has it: the width is that of the session.  For a
    session whose entropy width is one of the five and every entropy string,
    the checksum is the first digest byte shifted right by [8 - w], that is
    its top [w] bits as the low [w] bits, written as [w] binary digits
    padded with zeros, where [w] is the entropy width of the session divided
    by 32: 4, 5, 6, 7 or 8.  It is the bit length of the entropy divided by
    32 when the entropy has the bit length of the session. *)
Theorem C5_checksum_session_width (s : BIP39.t) (entropy : string) :
  In (BIP39.m_entropyBits s) entropy_lengths ->
  let w := BIP39.m_entropyBits s / 32 in
  BIP39.checksum sha256_Raw s entropy
  = binary_digits (Z.to_nat w) (Z.shiftr (digest0 sha256_Raw entropy) (8 - w))
  /\ strlen (BIP39.checksum sha256_Raw s entropy) = w
  /\ In (BIP39.m_entropyBits s, w)
        [(128, 4); (160, 5); (192, 6); (224, 7); (256, 8)]
  /\ (4 * strlen entropy = BIP39.m_entropyBits s ->
      strlen (BIP39.checksum sha256_Raw s entropy) = 4 * strlen entropy / 32).
Proof.
  intros H w. rewrite (checksum_supported s entropy H). fold w.
  split; [apply to_string_binary_digits|].
  assert (Hlen : strlen (bitset.to_string (Z.to_nat w)
                           (Z.shiftr (digest0 sha256_Raw entropy) (8 - w))) = w).
  { unfold strlen. rewrite to_string_length.
    unfold entropy_lengths in H. cbn [In] in H. subst w.
    destruct H as [H | [H | [H | [H | [H | []]]]]]; rewrite <- H; reflexivity. }
  split; [exact Hlen|]. split.
  - unfold entropy_lengths in H. cbn [In] in H. subst w.
    destruct H as [H | [H | [H | [H | [H | []]]]]]; rewrite <- H;
      vm_compute; tauto.
  - intros Hsame. rewrite Hlen, Hsame. reflexivity.
Qed.



End Checksum.

(** C5 at a session of 12 words and 128 zero bits. *)
Lemma C5_checksum_session_width_witness :
  BIP39.checksum SHA256.digest session_12 zero_entropy
  = binary_digits 4 (Z.shiftr (digest0 SHA256.digest zero_entropy) 4).
Proof.
  refine (proj1 (C5_checksum_session_width SHA256.digest session_12
                   zero_entropy _)).
  cbn. tauto.
Defined.

(** C5 as stated fails: for an accepted entropy of 160 bits on the session
    that [BIP39(12)] builds, [useEntropy] returns, and the checksum it
    computed has 4 digits, not the 5 that 160 / 32 asks for. *)
Lemma C5_width_not_of_entropy :
  BIP39.BIP39 12 = Ok session_12
  /\ BIP39.validateEntropy zero_entropy_160 = true
  /\ 4 * strlen zero_entropy_160 = 160
  /\ strlen (BIP39.checksum SHA256.digest session_12 zero_entropy_160) = 4
  /\ (exists s',
        BIP39.useEntropy SHA256.digest session_12 zero_entropy_160 = Ok s'
        /\ strlen (BIP39.m_checksum s') = 4)
  /\ 160 / 32 = 5.
Proof.
  split; [reflexivity|]. split; [reflexivity|]. split; [reflexivity|].
  split; [vm_compute; reflexivity|]. split; [|reflexivity].
  eexists. split; vm_compute; reflexivity.
Qed.


(** ** Finalization before the session is complete *)

Lemma mnemonic_entropy_unbound (s : BIP39.t) :
  BIP39.m_entropy s = EmptyString ->
  BIP39.mnemonic s = Throw (MnemonicException "Entropy is empty").
Proof. intros H. unfold BIP39.mnemonic. rewrite H. reflexivity. Qed.

Lemma mnemonic_wordlist_unbound (s : BIP39.t) :
  BIP39.m_entropy s <> EmptyString ->
  BIP39.m_wordList s = None ->
  BIP39.mnemonic s = Undefined.
Proof.
  intros He Hw. unfold BIP39.mnemonic.
  destruct (String.eqb_spec (BIP39.m_entropy s) EmptyString) as [E | _];
    [contradiction|].
  rewrite Hw. reflexivity.
Qed.

(** C8, at the input where the code departs from it: a session of 12 words
    that was given 128 zero bits of entropy and no wordlist.  [mnemonic]
    passes the test on the entropy and then calls [empty()] through the
    unbound [m_wordList]: the outcome is undefined behaviour, not an
    exception.  (Before the entropy is bound the call does throw "Entropy is
    empty", by [mnemonic_entropy_unbound].) *)
Theorem C8_mnemonic_without_wordlist :
  (s <- BIP39.BIP39 12 ;;
   s <- BIP39.useEntropy SHA256.digest s zero_entropy ;;
   BIP39.mnemonic s) = Undefined
  /\ (s <- BIP39.BIP39 12 ;; BIP39.mnemonic s)
     = Throw (MnemonicException "Entropy is empty").
Proof. split; vm_compute; reflexivity. Qed.

(** ** Strings *)

Lemma append_nil_r (s : string) : s ++ EmptyString = s.
Proof. induction s as [|c r IH]; cbn; [reflexivity | rewrite IH; reflexivity]. Qed.

Lemma append_assoc (a b c : string) : (a ++ b) ++ c = a ++ (b ++ c).
Proof. induction a as [|x r IH]; cbn; [reflexivity | rewrite IH; reflexivity]. Qed.

Lemma length_append (a b : string) :
  String.length (a ++ b) = (String.length a + String.length b)%nat.
Proof. induction a as [|x r IH]; cbn; [reflexivity | rewrite IH; reflexivity]. Qed.

Lemma substring_skip (pre s : string) (i n : nat) :
  substring (String.length pre + i) n (pre ++ s) = substring i n s.
Proof. induction pre as [|x r IH]; cbn; [reflexivity | exact IH]. Qed.

Lemma substring_0_all (s : string) (n : nat) :
  (String.length s <= n)%nat -> substring 0 n s = s.
Proof.
  revert n. induction s as [|c r IH]; intros n H.
  - destruct n; reflexivity.
  - destruct n as [|n]; cbn in H; [lia|].
    cbn. rewrite IH by lia. reflexivity.
Qed.

Lemma substring_0_app (a b : string) :
  substring 0 (String.length a) (a ++ b) = a.
Proof.
  induction a as [|c r IH]; cbn.
  - destruct b; reflexivity.
  - rewrite IH. reflexivity.
Qed.

Lemma substring_split (n : nat) (s : string) :
  s = substring 0 n s ++ substring n (String.length s - n) s.
Proof.
  revert s. induction n as [|n IH]; intros s.
  - rewrite Nat.sub_0_r, (substring_0_all s (String.length s)) by lia.
    destruct s; reflexivity.
  - destruct s as [|c r]; [reflexivity|].
    cbn. rewrite <- IH. reflexivity.
Qed.

Lemma substring_0_length (n : nat) (s : string) :
  String.length (substring 0 n s) = Nat.min n (String.length s).
Proof.
  revert s. induction n as [|n IH]; intros s.
  - destruct s; reflexivity.
  - destruct s as [|c r]; [reflexivity|]. cbn. rewrite IH. reflexivity.
Qed.

Lemma substring_from_length (n m : nat) (s : string) :
  String.length (substring n m s) = Nat.min m (String.length s - n).
Proof.
  revert s. induction n as [|n IH]; intros s.
  - rewrite substring_0_length. f_equal. lia.
  - destruct s as [|c r]; [cbn; lia|]. cbn. apply IH.
Qed.

(** ** Binary strings and [std::bitset] *)

Lemma binary_app (a b : string) : binary (a ++ b) <-> binary a /\ binary b.
Proof.
  unfold binary. induction a as [|c r IH]; cbn.
  - tauto.
  - rewrite !andb_true_iff, IH. tauto.
Qed.

Lemma binary_substring (n m : nat) (s : string) :
  binary s -> binary (substring n m s).
Proof.
  unfold binary. revert n m. induction s as [|c r IH]; intros n m H.
  - destruct n, m; reflexivity.
  - cbn in H. apply andb_true_iff in H. destruct H as [Hc Hr].
    destruct n as [|n]; [destruct m as [|m]|]; cbn.
    + reflexivity.
    + rewrite Hc. apply IH. exact Hr.
    + apply IH. exact Hr.
Qed.

Lemma to_string_binary (w : nat) (v : Z) : binary (bitset.to_string w v).
Proof.
  unfold binary. induction w as [|k IH]; cbn; [reflexivity|].
  rewrite IH. destruct (Z.testbit v (Z.of_nat k)); reflexivity.
Qed.

Lemma read_bits_value (s : string) (acc : Z) :
  binary s -> bitset.read_bits s acc = Ok (bits_value s acc).
Proof.
  unfold binary. revert acc. induction s as [|c r IH]; intros acc H.
  - reflexivity.
  - cbn in H. apply andb_true_iff in H. destruct H as [Hc Hr].
    unfold is_bit in Hc. cbn [bitset.read_bits bits_value].
    destruct (Ascii.eqb_spec c "0") as [-> | H0].
    + cbn. rewrite IH by exact Hr. f_equal. f_equal. lia.
    + destruct (Ascii.eqb c "1"); [|discriminate Hc].
      apply IH. exact Hr.
Qed.

Lemma bits_value_acc (s : string) (acc : Z) :
  bits_value s acc = acc * 2 ^ Z.of_nat (String.length s) + bits_value s 0
  /\ 0 <= bits_value s 0 < 2 ^ Z.of_nat (String.length s).
Proof.
  revert acc. induction s as [|c r IH]; intros acc.
  - cbn. lia.
  - cbn [bits_value String.length].
    destruct (IH (2 * acc + (if Ascii.eqb c "1" then 1 else 0))) as [E1 _].
    destruct (IH (2 * 0 + (if Ascii.eqb c "1" then 1 else 0))) as [E2 B].
    rewrite E1, E2. rewrite Nat2Z.inj_succ, Z.pow_succ_r by lia.
    destruct (Ascii.eqb c "1"); split; nia.
Qed.

Lemma bits_value_range (s : string) :
  (String.length s <= 11)%nat -> is_WordIndex (bits_value s 0).
Proof.
  intros H. destruct (bits_value_acc s 0) as [_ B].
  assert (2 ^ Z.of_nat (String.length s) <= 2 ^ 11)
    by (apply Z.pow_le_mono_r; lia).
  unfold is_WordIndex. change (2 ^ 11) with 2048 in *. lia.
Qed.

Lemma to_string_bits_value (s : string) (acc : Z) :
  binary s ->
  bitset.to_string (String.length s) (bits_value s acc) = s.
Proof.
  unfold binary. revert acc. induction s as [|c r IH]; intros acc H.
  - reflexivity.
  - cbn in H. apply andb_true_iff in H. destruct H as [Hc Hr].
    cbn [String.length bits_value bitset.to_string].
    rewrite IH by exact Hr. f_equal.
    destruct (bits_value_acc r (2 * acc + (if Ascii.eqb c "1" then 1 else 0)))
      as [E B]. rewrite E.
    set (k := Z.of_nat (String.length r)) in *.
    assert (Hk : 0 <= k) by (subst k; lia).
    rewrite Z.testbit_eqb by exact Hk.
    rewrite Z.div_add_l by (apply Z.pow_nonzero; lia).
    rewrite Z.div_small by exact B. rewrite Z.add_0_r.
    unfold is_bit in Hc.
    destruct (Ascii.eqb_spec c "1") as [-> | H1].
    + replace ((2 * acc + 1) mod 2) with 1; [reflexivity|].
      rewrite Z.add_comm, Z.mul_comm, Z.mod_add by lia. reflexivity.
    + destruct (Ascii.eqb_spec c "0") as [-> | H0]; [|discriminate Hc].
      replace ((2 * acc + 0) mod 2) with 0; [reflexivity|].
      rewrite Z.add_comm, Z.mul_comm, Z.mod_add by lia. reflexivity.
Qed.

(** ** Encoding: from entropy to chunks *)

Lemma hex_char_to_bin_binary (c : ascii) :
  BIP39_Utils.is_hex_digit c = true ->
  binary (BIP39_Utils.hex_char_to_bin c)
  /\ String.length (BIP39_Utils.hex_char_to_bin c) = 4%nat.
Proof.
  each_ascii c; intros H; try discriminate H; split; reflexivity.
Qed.

Lemma hex2bits_binary (hex : string) :
  BIP39_Utils.isHex hex = true ->
  binary (BIP39.hex2bits hex)
  /\ String.length (BIP39.hex2bits hex) = (4 * String.length hex)%nat.
Proof.
  unfold BIP39_Utils.isHex. induction hex as [|c r IH]; intros H.
  - split; reflexivity.
  - cbn in H. apply andb_true_iff in H. destruct H as [Hc Hr].
    destruct (hex_char_to_bin_binary c Hc) as [Bc Lc].
    destruct (IH Hr) as [Br Lr].
    cbn [BIP39.hex2bits]. split.
    + apply binary_app. split; assumption.
    + rewrite length_append, Lc, Lr. cbn [String.length]. lia.
Qed.

Lemma validateEntropy_isHex (entropy : string) :
  BIP39.validateEntropy entropy = true -> BIP39_Utils.isHex entropy = true.
Proof.
  unfold BIP39.validateEntropy.
  destruct (BIP39_Utils.isHex entropy); [reflexivity | discriminate].
Qed.

Lemma useEntropy_loop_done (fuel : nat) (str : string) (i : nat)
  (chunks : list Z) :
  (String.length str <= i)%nat ->
  BIP39.useEntropy_loop fuel str i chunks = Ok chunks.
Proof.
  intros H. destruct fuel; cbn [BIP39.useEntropy_loop]; [reflexivity|].
  destruct (Nat.ltb_spec i (String.length str)); [lia | reflexivity].
Qed.

Lemma of_string_chunk (t : string) :
  binary t -> (String.length t <= 11)%nat ->
  bitset.of_string 11 t = Ok (bits_value t 0).
Proof.
  intros B L. unfold bitset.of_string.
  rewrite substring_0_all by exact L. apply read_bits_value. exact B.
Qed.

(** The loop of [useEntropy] over a string of binary digits: it returns,
    having appended one chunk per started group of 11 digits, each a word
    index; and when the digits make whole groups, the chunks written out
    again give the digits back. *)
Lemma useEntropy_loop_chunks (fuel : nat) :
  forall (rest pre : string) (chunks : list Z),
    binary rest -> (String.length rest <= fuel)%nat ->
    exists vs,
      BIP39.useEntropy_loop fuel (pre ++ rest) (String.length pre) chunks
      = Ok (chunks ++ vs)%list
      /\ List.length vs = ((String.length rest + 10) / 11)%nat
      /\ Forall is_WordIndex vs
      /\ ((String.length rest mod 11 = 0)%nat -> BIP39.rawBinary_of vs = rest).
Proof.
  induction fuel as [|fuel IH]; intros rest pre chunks B L.
  - destruct rest; [|cbn in L; lia].
    exists []. cbn. rewrite app_nil_r. repeat split; constructor.
  - destruct (Nat.eq_dec (String.length rest) 0) as [E | NE].
    + destruct rest; [|discriminate E].
      exists []. rewrite append_nil_r.
      rewrite useEntropy_loop_done by lia.
      rewrite app_nil_r. repeat split; constructor.
    + cbn [BIP39.useEntropy_loop].
      destruct (Nat.ltb_spec (String.length pre) (String.length (pre ++ rest)))
        as [_ | Hge]; [|rewrite length_append in Hge; lia].
      replace (substring (String.length pre) 11 (pre ++ rest))
        with (substring 0 11 rest)
        by (rewrite <- (substring_skip pre rest 0 11); f_equal; lia).
      set (t := substring 0 11 rest).
      assert (Bt : binary t) by (apply binary_substring; exact B).
      assert (Lt : String.length t = Nat.min 11 (String.length rest))
        by apply substring_0_length.
      rewrite of_string_chunk by (try exact Bt; lia). cbn [bind].
      destruct (Nat.le_gt_cases 11 (String.length rest)) as [Hlong | Hshort].
      * pose proof (substring_split 11 rest) as Hsplit. fold t in Hsplit.
        set (rest' := substring 11 (String.length rest - 11) rest) in *.
        assert (Lr : String.length rest' = (String.length rest - 11)%nat).
        { subst rest'. rewrite substring_from_length. lia. }
        assert (Br : binary rest') by (apply binary_substring; exact B).
        destruct (IH rest' (pre ++ t) (chunks ++ [bits_value t 0])%list Br)
          as [vs [Hloop [Hlen [Hidx Hraw]]]]; [lia|].
        exists (bits_value t 0 :: vs).
        rewrite Hsplit at 1. rewrite <- append_assoc.
        replace (String.length pre + 11)%nat with (String.length (pre ++ t))
          by (rewrite length_append; lia).
        rewrite Hloop, <- app_assoc. split; [reflexivity|]. split; [|split].
        -- cbn [List.length]. rewrite Hlen, Lr.
           replace (String.length rest + 10)%nat
             with (String.length rest - 11 + 10 + 1 * 11)%nat by lia.
           rewrite Nat.div_add by lia. lia.
        -- constructor; [apply bits_value_range; lia | exact Hidx].
        -- intros Hmod. cbn [BIP39.rawBinary_of].
           replace 11%nat with (String.length t) at 1 by lia.
           rewrite to_string_bits_value by exact Bt.
           rewrite Hraw; [symmetry; exact Hsplit|].
           rewrite Lr.
           replace (String.length rest) with
             (String.length rest - 11 + 1 * 11)%nat in Hmod by lia.
           rewrite Nat.Div0.mod_add in Hmod. exact Hmod.
      * exists [bits_value t 0].
        rewrite useEntropy_loop_done by (rewrite length_append; lia).
        split; [reflexivity|]. split; [|split].
        -- cbn [List.length].
           apply (Nat.div_unique _ 11 1 (String.length rest - 1)); lia.
        -- constructor; [apply bits_value_range; lia | constructor].
        -- intros Hmod. exfalso.
           rewrite Nat.mod_small in Hmod by lia. lia.
Qed.

Lemma mnemonic_fold (wl : Wordlist.t) (chunks : list Z) :
  forall m,
    fold_left (BIP39.mnemonic_step wl) chunks m
    = {| words := (words m ++ map (Wordlist.getWord wl) chunks)%list;
         wordsIndex := (wordsIndex m ++ chunks)%list;
         rawBinaryChunks := (rawBinaryChunks m ++ chunks)%list;
         entropy := entropy m;
         mn_wordsCount := mn_wordsCount m + Z.of_nat (List.length chunks) |}.
Proof.
  induction chunks as [|bit r IH]; intros m.
  - cbn. rewrite !app_nil_r, Z.add_0_r. destruct m; reflexivity.
  - cbn [fold_left]. rewrite IH.
    unfold BIP39.mnemonic_step, bitset.to_ulong.
    cbn [words wordsIndex rawBinaryChunks entropy mn_wordsCount map List.length].
    rewrite <- !app_assoc. cbn [app]. f_equal. lia.
Qed.

Section Encoding.

Variable sha256_Raw : list byte -> list byte.

Lemma checksum_binary (s : BIP39.t) (entropy : string) :
  binary (BIP39.checksum sha256_Raw s entropy).
Proof.
  unfold BIP39.checksum. cbn zeta.
  repeat match goal with
         | |- context [if ?b then _ else _] => destruct b
         end; first [apply to_string_binary | reflexivity].
Qed.

Lemma checksum_length (wordCount : Z) (s : BIP39.t) (entropy : string) :
  BIP39.BIP39 wordCount = Ok s ->
  strlen (BIP39.checksum sha256_Raw s entropy) = BIP39.m_checksumBits s.
Proof.
  intros H. pose proof (BIP39_inv _ _ H) as Hv.
  rewrite (BIP39_valid _ Hv) in H. inversion H; subst; clear H.
  apply valid_wordCount_cases in Hv. unfold strlen.
  each_wordCount Hv;
    (rewrite checksum_supported by (vm_compute; tauto));
    rewrite to_string_length; reflexivity.
Qed.

Lemma useEntropy_chunks (s : BIP39.t) (entropy : string) :
  BIP39.validateEntropy entropy = true ->
  let cs := BIP39.checksum sha256_Raw s entropy in
  exists vs,
    BIP39.useEntropy sha256_Raw s entropy
    = Ok {| BIP39.m_wordsCount := BIP39.m_wordsCount s;
            BIP39.m_overallBits := BIP39.m_overallBits s;
            BIP39.m_checksumBits := BIP39.m_checksumBits s;
            BIP39.m_entropyBits := BIP39.m_entropyBits s;
            BIP39.m_entropy := entropy;
            BIP39.m_checksum := cs;
            BIP39.m_rawBinaryChunks := (BIP39.m_rawBinaryChunks s ++ vs)%list;
            BIP39.m_wordList := BIP39.m_wordList s |}
    /\ List.length vs
       = ((4 * String.length entropy + String.length cs + 10) / 11)%nat
    /\ Forall is_WordIndex vs
    /\ (((4 * String.length entropy + String.length cs) mod 11 = 0)%nat ->
        BIP39.rawBinary_of vs = BIP39.hex2bits entropy ++ cs).
Proof.
  intros Hv cs. unfold BIP39.useEntropy. rewrite Hv. cbn [negb]. fold cs.
  destruct (hex2bits_binary entropy (validateEntropy_isHex _ Hv)) as [Bh Lh].
  assert (Bs : binary (BIP39.hex2bits entropy ++ cs)).
  { apply binary_app. split; [exact Bh | apply checksum_binary]. }
  destruct (useEntropy_loop_chunks
              (String.length (BIP39.hex2bits entropy ++ cs))
              (BIP39.hex2bits entropy ++ cs) EmptyString
              (BIP39.m_rawBinaryChunks s) Bs (Nat.le_refl _))
    as [vs [Hloop [Hlen [Hidx Hraw]]]].
  cbn [append String.length] in Hloop.
  exists vs. rewrite Hloop. cbn [bind].
  rewrite length_append, Lh in Hlen, Hraw.
  repeat split; assumption.
Qed.

Lemma validateEntropy_nonempty (entropy : string) :
  BIP39.validateEntropy entropy = true -> entropy <> EmptyString.
Proof. intros H ->. discriminate H. Qed.

(** C9, as the code has it: on a session fresh from the constructor, with
    an accepted entropy and a table that is not empty, the pipeline
    [useEntropy], [wordList], [mnemonic] returns a Mnemonic whose word count
    is the number of its chunks, words and indices, namely the number of
    started groups of 11 digits among the entropy bits and the checksum
    bits; every word index lies in [0, 2047]; and when the entropy has the
    bit length of the session, as in [Entropy], the word count is
    [overallBits / 11], the word count of the session. *)
Theorem C9_encode_word_count (wordCount : Z) (s : BIP39.t)
  (entropy : string) (wordlist : Wordlist.t) :
  BIP39.BIP39 wordCount = Ok s ->
  BIP39.validateEntropy entropy = true ->
  Wordlist.empty wordlist = false ->
  exists m,
    encode sha256_Raw s entropy wordlist = Ok m
    /\ mn_wordsCount m = Z.of_nat (List.length (rawBinaryChunks m))
    /\ List.length (words m) = List.length (rawBinaryChunks m)
    /\ List.length (wordsIndex m) = List.length (rawBinaryChunks m)
    /\ mn_wordsCount m
       = (4 * strlen entropy + BIP39.m_checksumBits s + 10) / 11
    /\ Forall is_WordIndex (wordsIndex m)
    /\ (4 * strlen entropy = BIP39.m_entropyBits s ->
        mn_wordsCount m = BIP39.m_overallBits s / 11
        /\ mn_wordsCount m = wordCount).
Proof.
  intros Hs Hv Hwl.
  destruct (useEntropy_chunks s entropy Hv) as [vs [Hu [Hlen [Hidx _]]]].
  pose proof (checksum_length wordCount s entropy Hs) as Hcs.
  unfold strlen in Hcs.
  assert (Hfresh : BIP39.m_rawBinaryChunks s = []).
  { pose proof (BIP39_inv _ _ Hs) as Hvalid.
    rewrite (BIP39_valid _ Hvalid) in Hs. inversion Hs. reflexivity. }
  rewrite Hfresh in Hu. cbn [app] in Hu.
  unfold encode. rewrite Hu. cbn [bind BIP39.wordList].
  unfold BIP39.mnemonic.
  cbn [BIP39.m_entropy BIP39.m_wordList BIP39.m_rawBinaryChunks].
  destruct (String.eqb_spec entropy EmptyString) as [E | _];
    [exfalso; exact (validateEntropy_nonempty _ Hv E)|].
  rewrite Hwl, mnemonic_fold.
  cbn [words wordsIndex rawBinaryChunks mn_wordsCount app].
  eexists. split; [reflexivity|].
  cbn [words wordsIndex rawBinaryChunks mn_wordsCount].
  assert (Hcount : Z.of_nat (List.length vs)
                   = (4 * strlen entropy + BIP39.m_checksumBits s + 10) / 11).
  { rewrite Hlen, <- Hcs. unfold strlen.
    rewrite Nat2Z.inj_div. f_equal. lia. }
  split; [reflexivity|]. split; [apply length_map|]. split; [reflexivity|].
  split; [cbn; exact Hcount|]. split; [exact Hidx|].
  intros Hbits. rewrite Z.add_0_l, Hcount, Hbits.
  pose proof (BIP39_inv _ _ Hs) as Hvalid.
  rewrite (BIP39_valid _ Hvalid) in Hs. inversion Hs; subst; clear Hs.
  apply valid_wordCount_cases in Hvalid.
  cbn [BIP39.m_entropyBits BIP39.m_checksumBits BIP39.m_overallBits].
  each_wordCount Hvalid; split; reflexivity.
Qed.

End Encoding.

(** C9 at a session of 12 words and 128 zero bits. *)
Lemma C9_encode_word_count_witness :
  exists m,
    encode SHA256.digest session_12 zero_entropy sample_wordlist = Ok m
    /\ mn_wordsCount m = 12
    /\ Forall is_WordIndex (wordsIndex m).
Proof.
  destruct (C9_encode_word_count SHA256.digest 12 session_12 zero_entropy
              sample_wordlist)
    as [m [He [_ [_ [_ [_ [Hi Hc]]]]]]];
    [reflexivity | vm_compute; reflexivity | vm_compute; reflexivity |].
  exists m. split; [exact He|]. split; [|exact Hi].
  apply Hc. vm_compute. reflexivity.
Defined.

(** C9 as stated fails: a session of 12 words ([overallBits / 11 = 12])
    given 160 bits of entropy yields a Mnemonic of 15 words, the last chunk
    made of the 10 digits that remain. *)
Lemma C9_word_count_differs :
  exists m,
    BIP39.BIP39 12 = Ok session_12
    /\ encode SHA256.digest session_12 zero_entropy_160 sample_wordlist = Ok m
    /\ mn_wordsCount m = 15
    /\ BIP39.m_overallBits session_12 / 11 = 12.
Proof.
  eexists. split; [reflexivity|]. split; [vm_compute; reflexivity|].
  split; reflexivity.
Qed.

(** ** Decoding: words the table does not hold *)

Lemma find_from_absent (l : list string) (word : string) (i : Z) :
  ~ In word l -> Wordlist.find_from l word i = -1.
Proof.
  revert i. induction l as [|w r IH]; intros i H; [reflexivity|].
  cbn [Wordlist.find_from].
  destruct (String.eqb_spec w word) as [-> | _].
  - exfalso. apply H. left. reflexivity.
  - apply IH. intros Hin. apply H. right. exact Hin.
Qed.

Lemma find_from_present (l : list string) (word : string) (i : Z) :
  In word l ->
  i <= Wordlist.find_from l word i < i + Z.of_nat (List.length l)
  /\ nth (Z.to_nat (Wordlist.find_from l word i - i)) l EmptyString = word.
Proof.
  revert i. induction l as [|w r IH]; intros i H; [contradiction|].
  cbn [Wordlist.find_from List.length].
  destruct (String.eqb_spec w word) as [-> | Hne].
  - rewrite Z.sub_diag. cbn. split; [lia | reflexivity].
  - destruct H as [H | H]; [contradiction|].
    destruct (IH (i + 1) H) as [Hr Hn]. split; [lia|].
    replace (Z.to_nat (Wordlist.find_from r word (i + 1) - i))
      with (S (Z.to_nat (Wordlist.find_from r word (i + 1) - (i + 1))))
      by lia.
    exact Hn.
Qed.

Lemma findIndex_negative (wl : Wordlist.t) (word : string) :
  Wordlist.findIndex wl word < 0 <-> ~ In word (Wordlist.entries wl).
Proof.
  unfold Wordlist.findIndex. split.
  - intros Hneg Hin.
    destruct (find_from_present _ _ 0 Hin) as [Hr _]. lia.
  - intros H. rewrite find_from_absent by exact H. lia.
Qed.

Lemma reverse_loop_known (wl : Wordlist.t) (pre rest : list string) :
  Forall (fun w => In w (Wordlist.entries wl)) pre ->
  forall m,
    BIP39.reverse_loop wl (pre ++ rest) m
    = BIP39.reverse_loop wl rest
        {| words := (words m ++ pre)%list;
           wordsIndex := (wordsIndex m ++ map (Wordlist.findIndex wl) pre)%list;
           rawBinaryChunks :=
             (rawBinaryChunks m
              ++ map (fun w => bitset.of_ullong 11 (Wordlist.findIndex wl w)) pre)%list;
           entropy := entropy m;
           mn_wordsCount := mn_wordsCount m + Z.of_nat (List.length pre) |}.
Proof.
  induction 1 as [|w pre Hw Hpre IH]; intros m.
  - cbn. rewrite !app_nil_r, Z.add_0_r. destruct m; reflexivity.
  - cbn [app BIP39.reverse_loop].
    destruct (Z.ltb_spec (Wordlist.findIndex wl w) 0) as [Hneg | _].
    + exfalso. apply findIndex_negative in Hneg. contradiction.
    + rewrite IH.
      cbn [words wordsIndex rawBinaryChunks mn_wordsCount map List.length].
      rewrite <- !app_assoc. cbn [app]. f_equal. f_equal. lia.
Qed.

Lemma reverse_loop_unknown (wl : Wordlist.t) (w : string)
  (post : list string) (m : Mnemonic) :
  ~ In w (Wordlist.entries wl) ->
  BIP39.reverse_loop wl (w :: post) m = inl m.
Proof.
  intros H. cbn [BIP39.reverse_loop].
  apply findIndex_negative in H.
  destruct (Z.ltb_spec (Wordlist.findIndex wl w) 0); [reflexivity | lia].
Qed.

Lemma first_unknown (l : list string) (ws : list string) :
  (exists w, In w ws /\ ~ In w l) ->
  exists pre w post,
    ws = (pre ++ w :: post)%list
    /\ Forall (fun x => In x l) pre
    /\ ~ In w l.
Proof.
  induction ws as [|x r IH]; intros [w [Hin Hout]]; [contradiction|].
  destruct (in_dec string_dec x l) as [Hx | Hx].
  - destruct Hin as [-> | Hin]; [contradiction|].
    destruct IH as [pre [u [post [E [Hpre Hu]]]]]; [exists w; tauto|].
    exists (x :: pre), u, post. subst r.
    split; [reflexivity|]. split; [constructor; assumption | exact Hu].
  - exists [], x, r. split; [reflexivity|]. split; [constructor | exact Hx].
Qed.

Section UnknownWord.

Variable sha256_Raw : list byte -> list byte.

(** C2, as the code has it: when the word count of the phrase is accepted
    and the table is not empty, a phrase with a word the table does not hold
    is decoded without any error: [Words] returns the Mnemonic gathered up
    to the first such word, with the words before it, their indices and
    chunks, an empty entropy, and no checksum test, whatever the flag. *)
Theorem C2_unknown_word_truncates (phrase : string) (wl : Wordlist.t)
  (verifyChecksum : bool) :
  valid_wordCount (BIP39.Words_wordCount (getline_words EmptyString phrase)) ->
  Wordlist.empty wl = false ->
  (exists w, In w (getline_words EmptyString phrase)
             /\ ~ In w (Wordlist.entries wl)) ->
  exists pre w post,
    getline_words EmptyString phrase = (pre ++ w :: post)%list
    /\ Forall (fun x => In x (Wordlist.entries wl)) pre
    /\ ~ In w (Wordlist.entries wl)
    /\ BIP39.Words sha256_Raw phrase (Some wl) verifyChecksum
       = Ok (decoded_prefix wl pre).
Proof.
  intros Hcount Hwl Hunk.
  destruct (first_unknown _ _ Hunk) as [pre [w [post [E [Hpre Hw]]]]].
  exists pre, w, post. split; [exact E|]. split; [exact Hpre|].
  split; [exact Hw|].
  unfold BIP39.Words. rewrite (BIP39_valid _ Hcount). cbn [bind BIP39.wordList].
  unfold BIP39.reverse. cbn [BIP39.m_wordList]. rewrite Hwl, E.
  rewrite (reverse_loop_known wl pre (w :: post) Hpre).
  rewrite reverse_loop_unknown by exact Hw.
  reflexivity.
Qed.

End UnknownWord.

(** C2 at twelve words, the second unknown. *)
Lemma C2_unknown_word_truncates_witness :
  exists pre w post,
    getline_words EmptyString phrase_unknown_word = (pre ++ w :: post)%list
    /\ BIP39.Words SHA256.digest phrase_unknown_word (Some sample_wordlist) true
       = Ok (decoded_prefix sample_wordlist pre).
Proof.
  destruct (C2_unknown_word_truncates SHA256.digest phrase_unknown_word
              sample_wordlist true)
    as [pre [w [post [E [_ [_ H]]]]]].
  - apply valid_wordCount_cases. vm_compute. tauto.
  - vm_compute. reflexivity.
  - exists "zzz". split; [vm_compute; tauto|].
    apply findIndex_negative. vm_compute. reflexivity.
  - exists pre, w, post. split; [exact E | exact H].
Defined.

(** C2 as stated fails: decoding twelve words of which the second is not
    in the table returns, as a result and with the checksum test requested,
    a Mnemonic of one word and empty entropy. *)
Lemma C2_unknown_word_returns :
  In "zzz" (getline_words EmptyString phrase_unknown_word)
  /\ ~ In "zzz" (Wordlist.entries sample_wordlist)
  /\ BIP39.Words SHA256.digest phrase_unknown_word (Some sample_wordlist) true
     = Ok {| words := ["w00000000001"];
             wordsIndex := [1];
             rawBinaryChunks := [1];
             entropy := EmptyString;
             mn_wordsCount := 1 |}.
Proof.
  split; [vm_compute; tauto|]. split.
  - apply findIndex_negative. vm_compute. reflexivity.
  - vm_compute. reflexivity.
Qed.

(** ** Decoding: from the phrase back to the chunks *)

Lemma getline_words_word (u : string) :
  BIP39_Utils.all_of (fun c => negb (Ascii.eqb c " ")) u = true ->
  forall word rest,
    getline_words word (u ++ rest) = getline_words (word ++ u) rest.
Proof.
  induction u as [|c r IH]; intros H word rest.
  - rewrite append_nil_r. reflexivity.
  - cbn in H. apply andb_true_iff in H. destruct H as [Hc Hr].
    cbn [append getline_words].
    destruct (Ascii.eqb c " "); [discriminate Hc|].
    rewrite (IH Hr). f_equal. rewrite append_assoc. reflexivity.
Qed.

Lemma getline_words_phrase (ws : list string) :
  Forall (fun w => is_word w = true) ws ->
  getline_words EmptyString (phrase_of ws) = ws.
Proof.
  unfold phrase_of. induction 1 as [|x r Hx Hr IH]; [reflexivity|].
  unfold is_word in Hx. apply andb_true_iff in Hx. destruct Hx as [Hne Hsp].
  destruct r as [|y r'].
  - cbn [String.concat]. rewrite <- (append_nil_r x) at 1.
    rewrite (getline_words_word x Hsp). cbn [append getline_words].
    destruct x; [discriminate Hne | reflexivity].
  - change (String.concat " " (x :: y :: r'))
      with (x ++ String " " (String.concat " " (y :: r'))).
    rewrite (getline_words_word x Hsp). cbn [append getline_words].
    cbn. cbn in IH. rewrite IH. reflexivity.
Qed.

Lemma find_from_nth (l : list string) :
  NoDup l ->
  forall (i : nat) (k : Z),
    (i < List.length l)%nat ->
    Wordlist.find_from l (nth i l EmptyString) k = k + Z.of_nat i.
Proof.
  induction 1 as [|w r Hw Hr IH]; intros i k Hi; [cbn in Hi; lia|].
  destruct i as [|i]; cbn [nth Wordlist.find_from].
  - rewrite String.eqb_refl. lia.
  - cbn in Hi.
    destruct (String.eqb_spec w (nth i r EmptyString)) as [E | _].
    + exfalso. apply Hw. rewrite E. apply nth_In. lia.
    + rewrite IH by lia. lia.
Qed.

Lemma distinct_NoDup (l : list string) : distinct l = true -> NoDup l.
Proof.
  induction l as [|w r IH]; intros H; [constructor|].
  cbn in H. apply andb_true_iff in H. destruct H as [Hw Hr].
  constructor; [|apply IH; exact Hr].
  intros Hin. apply negb_true_iff in Hw.
  assert (existsb (String.eqb w) r = true); [|congruence].
  apply existsb_exists. exists w. split; [exact Hin | apply String.eqb_refl].
Qed.

Section Table.

Variable wl : Wordlist.t.
Hypothesis wf : wordlist_wf wl.

Lemma wordlist_not_empty : Wordlist.empty wl = false.
Proof.
  destruct wf as [Hlen _]. unfold Wordlist.empty.
  destruct (Wordlist.entries wl); [discriminate Hlen | reflexivity].
Qed.

Lemma getWord_entry (index : Z) :
  is_WordIndex index ->
  In (Wordlist.getWord wl index) (Wordlist.entries wl)
  /\ is_word (Wordlist.getWord wl index) = true
  /\ Wordlist.findIndex wl (Wordlist.getWord wl index) = index.
Proof.
  intros [Hlo Hhi]. destruct wf as [Hlen [Hnd Hw]].
  unfold Wordlist.getWord, Wordlist.findIndex.
  destruct (Z.ltb_spec index 0); [lia|].
  assert (Hi : (Z.to_nat index < List.length (Wordlist.entries wl))%nat)
    by (rewrite Hlen; lia).
  assert (Hin : In (nth (Z.to_nat index) (Wordlist.entries wl) EmptyString)
                   (Wordlist.entries wl)) by (apply nth_In; exact Hi).
  split; [exact Hin|]. split.
  - rewrite Forall_forall in Hw. apply Hw. exact Hin.
  - rewrite find_from_nth by assumption. lia.
Qed.

Lemma getWord_chunks (chunks : list Z) :
  Forall is_WordIndex chunks ->
  Forall (fun w => In w (Wordlist.entries wl))
         (map (Wordlist.getWord wl) chunks)
  /\ Forall (fun w => is_word w = true) (map (Wordlist.getWord wl) chunks)
  /\ map (Wordlist.findIndex wl) (map (Wordlist.getWord wl) chunks) = chunks
  /\ map (fun w => bitset.of_ullong 11 (Wordlist.findIndex wl w))
         (map (Wordlist.getWord wl) chunks) = chunks.
Proof.
  induction 1 as [|v r Hv Hr IH]; cbn [map].
  - repeat split; constructor.
  - destruct (getWord_entry v Hv) as [Hin [Hword Hfind]].
    destruct IH as [I1 [I2 [I3 I4]]].
    split; [constructor; assumption|]. split; [constructor; assumption|].
    rewrite Hfind, I3, I4. split; [reflexivity|].
    f_equal. unfold bitset.of_ullong, is_WordIndex in *.
    apply Z.mod_small. change (2 ^ Z.of_nat 11) with 2048. lia.
Qed.

End Table.

(** ** The case of the hex digits in the checksum *)

Lemma nibble_tolower (c : ascii) :
  BIP39_Utils.nibble (tolower c) = BIP39_Utils.nibble c.
Proof. each_ascii c; reflexivity. Qed.

Lemma base16Decode_lowercase (n : nat) :
  forall s, (String.length s <= n)%nat ->
    BIP39_Utils.base16Decode (lowercase s) = BIP39_Utils.base16Decode s.
Proof.
  induction n as [|n IH]; intros s H.
  - destruct s; [reflexivity | cbn in H; lia].
  - destruct s as [|hi [|lo r]]; try reflexivity.
    cbn [lowercase BIP39_Utils.base16Decode].
    rewrite !nibble_tolower, IH by (cbn in H; lia). reflexivity.
Qed.

Lemma checksum_lowercase (sha256_Raw : list byte -> list byte)
  (s : BIP39.t) (entropy : string) :
  BIP39.checksum sha256_Raw s (lowercase entropy)
  = BIP39.checksum sha256_Raw s entropy.
Proof.
  unfold BIP39.checksum.
  rewrite (base16Decode_lowercase (String.length entropy)) by lia.
  reflexivity.
Qed.

(** ** Word counts and sessions *)

Lemma Words_wordCount_small (ws : list string) :
  Z.of_nat (List.length ws) < 2 ^ 31 ->
  BIP39.Words_wordCount ws = Z.of_nat (List.length ws).
Proof.
  intros H. unfold BIP39.Words_wordCount, to_int.
  rewrite size_t_small by lia. rewrite Z.mod_small by lia. lia.
Qed.

Lemma checksum_ext (sha256_Raw : list byte -> list byte) (s s' : BIP39.t)
  (entropy : string) :
  BIP39.m_entropyBits s = BIP39.m_entropyBits s' ->
  BIP39.checksum sha256_Raw s entropy = BIP39.checksum sha256_Raw s' entropy.
Proof. intros H. unfold BIP39.checksum. rewrite H. reflexivity. Qed.

(** The session [Entropy] builds for an entropy of one of the five bit
    lengths. *)
Lemma Entropy_session (entropy : string) :
  In (4 * strlen entropy) entropy_lengths ->
  exists wordCount s,
    BIP39.Entropy_wordsCount entropy = wordCount
    /\ BIP39.BIP39 wordCount = Ok s
    /\ 12 <= wordCount <= 24
    /\ BIP39.m_entropyBits s = 4 * strlen entropy
    /\ 4 * strlen entropy + BIP39.m_checksumBits s = 11 * wordCount
    /\ BIP39.m_rawBinaryChunks s = []
    /\ BIP39.m_wordList s = None.
Proof.
  intros H. unfold BIP39.Entropy_wordsCount.
  replace (strlen entropy * 4) with (4 * strlen entropy) by lia.
  unfold entropy_lengths in H. cbn [In] in H.
  destruct H as [H | [H | [H | [H | [H | []]]]]]; rewrite <- H;
    eexists; eexists; (split; [vm_compute; reflexivity|]);
    (split; [reflexivity|]); cbn; repeat split; lia.
Qed.

Lemma sample_wordlist_wf : wordlist_wf sample_wordlist.
Proof.
  split; [vm_compute; reflexivity|]. split.
  - apply distinct_NoDup. vm_compute. reflexivity.
  - apply Forall_forall. apply forallb_forall. vm_compute. reflexivity.
Qed.

(** * Further properties of the conversion engine *)

(** ** [Entropy] *)

Lemma Entropy_wordsCount_valid (entropy : string) :
  BIP39.validateEntropy entropy = true ->
  valid_wordCount (BIP39.Entropy_wordsCount entropy).
Proof.
  intros H. apply Entropy_wordsCount_table in H.
  apply valid_wordCount_cases. unfold width_table in H. cbn [In] in H.
  repeat (destruct H as [H | H]; [inversion H; tauto|]). contradiction.
Qed.

Section EntropyOutcome.

Variable sha256_Raw : list byte -> list byte.
Variable english : Wordlist.t.

(** The outcomes of [Entropy]: a string that [validateEntropy] rejects
    throws "Invalid Entropy: " followed by the string; an accepted one
    throws "Wordlist is empty" when the table is empty and returns a
    Mnemonic holding the entropy as given otherwise.  There is no other
    outcome: no standard exception, no undefined behaviour. *)
Theorem Entropy_outcome (e : string) :
  (BIP39.validateEntropy e = false ->
   BIP39.Entropy sha256_Raw english e
   = Throw (MnemonicException ("Invalid Entropy: " ++ e)))
  /\ (BIP39.validateEntropy e = true -> Wordlist.empty english = true ->
      BIP39.Entropy sha256_Raw english e
      = Throw (MnemonicException "Wordlist is empty"))
  /\ (BIP39.validateEntropy e = true -> Wordlist.empty english = false ->
      exists m, BIP39.Entropy sha256_Raw english e = Ok m /\ entropy m = e).
Proof.
  split; [|split].
  - intros H. unfold BIP39.Entropy. rewrite H. reflexivity.
  - intros Hv Hwl. unfold BIP39.Entropy. rewrite Hv. cbn [negb].
    pose proof (BIP39_valid _ (Entropy_wordsCount_valid e Hv)) as Hs.
    match type of Hs with _ = Ok ?r => set (s := r) in Hs end.
    rewrite Hs. cbn [bind].
    destruct (useEntropy_chunks sha256_Raw s e Hv) as [vs [Hu _]].
    rewrite Hu. cbn [bind BIP39.wordList]. unfold BIP39.mnemonic.
    cbn [BIP39.m_entropy BIP39.m_wordList].
    destruct (String.eqb_spec e EmptyString) as [E | _];
      [exfalso; exact (validateEntropy_nonempty _ Hv E)|].
    rewrite Hwl. reflexivity.
  - intros Hv Hwl. unfold BIP39.Entropy. rewrite Hv. cbn [negb].
    pose proof (BIP39_valid _ (Entropy_wordsCount_valid e Hv)) as Hs.
    match type of Hs with _ = Ok ?r => set (s := r) in Hs end.
    rewrite Hs. cbn [bind].
    destruct (useEntropy_chunks sha256_Raw s e Hv) as [vs [Hu _]].
    rewrite Hu. cbn [bind BIP39.wordList]. unfold BIP39.mnemonic.
    cbn [BIP39.m_entropy BIP39.m_wordList].
    destruct (String.eqb_spec e EmptyString) as [E | _];
      [exfalso; exact (validateEntropy_nonempty _ Hv E)|].
    rewrite Hwl, mnemonic_fold. eexists. split; reflexivity.
Qed.

Lemma Entropy_returns_bits (e : string) :
  BIP39_Utils.isHex e = true ->
  In (4 * strlen e) entropy_lengths ->
  Wordlist.empty english = false ->
  exists wordCount s m,
    BIP39.Entropy sha256_Raw english e = Ok m
    /\ entropy m = e
    /\ In (wordCount, 4 * strlen e) width_table
    /\ BIP39.BIP39 wordCount = Ok s
    /\ BIP39.rawBinary_of (wordsIndex m)
       = BIP39.hex2bits e ++ BIP39.checksum sha256_Raw s e
    /\ rawBinaryChunks m = wordsIndex m
    /\ words m = map (Wordlist.getWord english) (wordsIndex m)
    /\ Forall is_WordIndex (wordsIndex m)
    /\ mn_wordsCount m = wordCount
    /\ Z.of_nat (List.length (words m)) = wordCount.
Proof.
  intros HisHex Hlen Hwl.
  assert (Hsmall : strlen e < 2 ^ 62).
  { unfold entropy_lengths in Hlen. cbn [In] in Hlen. lia. }
  assert (Hv : BIP39.validateEntropy e = true).
  { apply (validateEntropy_spec e Hsmall). split; assumption. }
  destruct (Entropy_session e Hlen)
    as [wc [s [Hwc [Hs [Hrange [Hbits [Hsum [Hfresh Hnowl]]]]]]]].
  destruct (useEntropy_chunks sha256_Raw s e Hv) as [vs [Hu [Hn [Hidx Hraw]]]].
  pose proof (checksum_length sha256_Raw wc s e Hs) as Hcs.
  set (cs := BIP39.checksum sha256_Raw s e) in *.
  unfold strlen in Hcs, Hbits, Hsum.
  assert (Hcount : List.length vs = Z.to_nat wc).
  { rewrite Hn.
    replace (4 * String.length e + String.length cs + 10)%nat
      with (10 + Z.to_nat wc * 11)%nat by lia.
    rewrite Nat.div_add by lia. reflexivity. }
  assert (Hwhole : ((4 * String.length e + String.length cs) mod 11 = 0)%nat).
  { replace (4 * String.length e + String.length cs)%nat
      with (0 + Z.to_nat wc * 11)%nat by lia.
    rewrite Nat.Div0.mod_add. reflexivity. }
  specialize (Hraw Hwhole).
  rewrite Hfresh in Hu. cbn [app] in Hu.
  exists wc, s.
  exists {| words := map (Wordlist.getWord english) vs;
            wordsIndex := vs;
            rawBinaryChunks := vs;
            entropy := e;
            mn_wordsCount := 0 + Z.of_nat (List.length vs) |}.
  cbn [words wordsIndex rawBinaryChunks mn_wordsCount].
  split; [|split; [reflexivity|split; [|split; [exact Hs|split; [exact Hraw|
    split; [reflexivity|split; [reflexivity|split; [exact Hidx|split]]]]]]]].
  - unfold BIP39.Entropy. rewrite Hv, Hwc, Hs. cbn [negb bind].
    rewrite Hu. cbn [bind BIP39.wordList]. unfold BIP39.mnemonic.
    cbn [BIP39.m_entropy BIP39.m_wordList BIP39.m_rawBinaryChunks].
    destruct (String.eqb_spec e EmptyString) as [E | _];
      [exfalso; exact (validateEntropy_nonempty _ Hv E)|].
    rewrite Hwl, mnemonic_fold. reflexivity.
  - unfold strlen. rewrite <- Hbits. apply (BIP39_entropyBits _ _ Hs).
  - rewrite Hcount. lia.
  - rewrite length_map, Hcount. lia.
Qed.

(** What [Entropy] returns for a hex entropy of one of the five bit
    lengths: the indices, written as 11 binary digits each, are the bits of
    the entropy followed by the checksum of the session; the chunks are the
    indices; the words are the table entries at the indices; and there are
    as many of each as the table of widths gives for the bit length. *)
Theorem Entropy_bits (e : string) :
  hex_string e ->
  In (4 * strlen e) entropy_lengths ->
  Wordlist.empty english = false ->
  exists wordCount s m,
    BIP39.Entropy sha256_Raw english e = Ok m
    /\ entropy m = e
    /\ In (wordCount, 4 * strlen e) width_table
    /\ BIP39.BIP39 wordCount = Ok s
    /\ BIP39.rawBinary_of (wordsIndex m)
       = BIP39.hex2bits e ++ BIP39.checksum sha256_Raw s e
    /\ rawBinaryChunks m = wordsIndex m
    /\ words m = map (Wordlist.getWord english) (wordsIndex m)
    /\ Forall is_WordIndex (wordsIndex m)
    /\ mn_wordsCount m = wordCount
    /\ Z.of_nat (List.length (words m)) = wordCount.
Proof.
  intros Hhex Hlen Hwl. apply isHex_hex_string in Hhex.
  destruct (Entropy_returns_bits e Hhex Hlen Hwl)
    as [wordCount [s [m H]]].
  exists wordCount, s, m. exact H.
Qed.

End EntropyOutcome.

Lemma Entropy_outcome_witness :
  BIP39.Entropy SHA256.digest sample_wordlist "xyz"
  = Throw (MnemonicException "Invalid Entropy: xyz")
  /\ BIP39.Entropy SHA256.digest (Wordlist.mk []) zero_entropy
     = Throw (MnemonicException "Wordlist is empty")
  /\ exists m, BIP39.Entropy SHA256.digest sample_wordlist zero_entropy = Ok m
               /\ entropy m = zero_entropy.
Proof.
  split; [|split].
  - apply (proj1 (Entropy_outcome SHA256.digest sample_wordlist "xyz")).
    vm_compute. reflexivity.
  - apply (proj1 (proj2 (Entropy_outcome SHA256.digest (Wordlist.mk [])
                           zero_entropy))); vm_compute; reflexivity.
  - apply (proj2 (proj2 (Entropy_outcome SHA256.digest sample_wordlist
                           zero_entropy))); vm_compute; reflexivity.
Defined.

Lemma Entropy_bits_witness :
  exists wordCount s m,
    BIP39.Entropy SHA256.digest sample_wordlist sample_entropy = Ok m
    /\ BIP39.BIP39 wordCount = Ok s
    /\ BIP39.rawBinary_of (wordsIndex m)
       = BIP39.hex2bits sample_entropy
         ++ BIP39.checksum SHA256.digest s sample_entropy
    /\ mn_wordsCount m = wordCount.
Proof.
  destruct (Entropy_bits SHA256.digest sample_wordlist sample_entropy)
    as [wc [s [m [He [_ [_ [Hs [Hraw [_ [_ [_ [Hc _]]]]]]]]]]]];
    [apply isHex_hex_string; vm_compute; reflexivity | vm_compute; tauto
    | vm_compute; reflexivity |].
  exists wc, s, m. repeat split; assumption.
Defined.

(** ** [reverse] and [Words] on words of the table *)

Lemma rawBinary_of_length (chunks : list Z) :
  String.length (BIP39.rawBinary_of chunks) = (11 * List.length chunks)%nat.
Proof.
  induction chunks as [|v r IH]; [reflexivity|].
  cbn [BIP39.rawBinary_of List.length].
  rewrite length_append, to_string_length, IH. lia.
Qed.

Lemma rawBinary_of_binary (chunks : list Z) :
  binary (BIP39.rawBinary_of chunks).
Proof.
  induction chunks as [|v r IH]; [reflexivity|].
  cbn [BIP39.rawBinary_of]. apply binary_app.
  split; [apply to_string_binary | exact IH].
Qed.

Lemma known_or_unknown (l : list string) (ws : list string) :
  Forall (fun w => In w l) ws
  \/ exists pre w post,
       ws = (pre ++ w :: post)%list
       /\ Forall (fun x => In x l) pre
       /\ ~ In w l.
Proof.
  induction ws as [|x r IH]; [left; constructor|].
  destruct (in_dec string_dec x l) as [Hx | Hx].
  - destruct IH as [IH | [pre [w [post [E [Hpre Hw]]]]]].
    + left. constructor; assumption.
    + right. exists (x :: pre), w, post. subst r.
      split; [reflexivity|]. split; [constructor; assumption | exact Hw].
  - right. exists [], x, r. split; [reflexivity|].
    split; [constructor | exact Hx].
Qed.

Lemma BIP39_outcome (wordCount : Z) :
  (exists s, BIP39.BIP39 wordCount = Ok s) \/ fails (BIP39.BIP39 wordCount).
Proof.
  destruct (Z.eq_dec wordCount 12) as [->|];
    [left; eexists; reflexivity|].
  destruct (Z.eq_dec wordCount 15) as [->|];
    [left; eexists; reflexivity|].
  destruct (Z.eq_dec wordCount 18) as [->|];
    [left; eexists; reflexivity|].
  destruct (Z.eq_dec wordCount 21) as [->|];
    [left; eexists; reflexivity|].
  destruct (Z.eq_dec wordCount 24) as [->|];
    [left; eexists; reflexivity|].
  right. apply BIP39_invalid. rewrite valid_wordCount_cases. lia.
Qed.

Lemma Words_wordCount_le (ws : list string) :
  0 <= BIP39.Words_wordCount ws ->
  BIP39.Words_wordCount ws <= Z.of_nat (List.length ws).
Proof.
  unfold BIP39.Words_wordCount, to_int, size_t.
  set (n := Z.of_nat (List.length ws)).
  assert (Hn : 0 <= n) by (subst n; lia).
  pose proof (Z.mod_pos_bound n (2 ^ 64) ltac:(lia)) as H64.
  pose proof (Z.mod_le n (2 ^ 64) Hn ltac:(lia)) as Hle.
  set (x := n mod 2 ^ 64) in *.
  pose proof (Z.div_mod (x + 2 ^ 31) (2 ^ 32) ltac:(lia)) as Hdm.
  pose proof (Z.mod_pos_bound (x + 2 ^ 31) (2 ^ 32) ltac:(lia)) as H32.
  assert (Hq : 0 <= (x + 2 ^ 31) / 2 ^ 32) by (apply Z.div_pos; lia).
  intros Hr. nia.
Qed.

Lemma substr_0 (s : string) (n : nat) : substr s 0 n = Ok (substring 0 n s).
Proof. reflexivity. Qed.

Lemma session_widths (wordCount : Z) (s : BIP39.t) :
  BIP39.BIP39 wordCount = Ok s ->
  In (wordCount, BIP39.m_entropyBits s) width_table
  /\ BIP39.m_entropyBits s + BIP39.m_checksumBits s = 11 * wordCount
  /\ 4 <= BIP39.m_checksumBits s <= 8
  /\ (Z.to_nat (BIP39.m_entropyBits s) mod 4 = 0)%nat
  /\ 128 <= BIP39.m_entropyBits s <= 256
  /\ BIP39.m_wordList s = None
  /\ BIP39.m_rawBinaryChunks s = [].
Proof.
  intros H. pose proof (BIP39_entropyBits _ _ H) as Ht.
  pose proof (BIP39_inv _ _ H) as Hv.
  rewrite (BIP39_valid _ Hv) in H. inversion H; subst s; clear H.
  split; [exact Ht|].
  apply valid_wordCount_cases in Hv.
  each_wordCount Hv; cbn; repeat split; lia.
Qed.

Lemma Words_reverse (sha256_Raw : list byte -> list byte) (phrase : string)
  (wl : Wordlist.t) (verifyChecksum : bool) (s : BIP39.t) :
  BIP39.BIP39 (BIP39.Words_wordCount (getline_words EmptyString phrase)) = Ok s ->
  BIP39.Words sha256_Raw phrase (Some wl) verifyChecksum
  = BIP39.reverse sha256_Raw (with_wordList s wl)
      (getline_words EmptyString phrase) verifyChecksum.
Proof. intros H. unfold BIP39.Words. rewrite H. reflexivity. Qed.

Lemma known_check (wl : Wordlist.t) (ws : list string) :
  forallb (fun w => 0 <=? Wordlist.findIndex wl w) ws = true ->
  Forall (fun w => In w (Wordlist.entries wl)) ws.
Proof.
  intros H. apply Forall_forall. intros w Hw.
  rewrite forallb_forall in H. specialize (H w Hw).
  destruct (in_dec string_dec w (Wordlist.entries wl)) as [Hin | Hout];
    [exact Hin|].
  apply findIndex_negative in Hout. lia.
Qed.

Lemma bits2hex_nonempty (bits : string) :
  bits <> EmptyString -> BIP39.bits2hex bits = Undefined.
Proof. destruct bits as [|c r]; [contradiction | reflexivity]. Qed.

Lemma length_nonempty (s : string) :
  (0 < String.length s)%nat -> s <> EmptyString.
Proof. destruct s; [cbn; lia | discriminate]. Qed.

Section Decoding.

Variable sha256_Raw : list byte -> list byte.

(** [reverse] on words that are all in the table, when the chunks hold at
    least the entropy bits of the session: both [substr] return, and
    [bits2hex] reads its first group through the dangling pointer. *)
Lemma reverse_all_known (s : BIP39.t) (wl : Wordlist.t) (ws : list string)
  (verifyChecksum : bool) :
  BIP39.m_wordList s = Some wl ->
  Wordlist.empty wl = false ->
  Forall (fun w => In w (Wordlist.entries wl)) ws ->
  (0 < Z.to_nat (BIP39.m_entropyBits s) <= 11 * List.length ws)%nat ->
  BIP39.reverse sha256_Raw s ws verifyChecksum = Undefined.
Proof.
  intros Hwl Hne Hknown Hlen.
  unfold BIP39.reverse. rewrite Hwl, Hne.
  rewrite <- (app_nil_r ws) at 1.
  rewrite (reverse_loop_known wl ws [] Hknown).
  cbn [BIP39.reverse_loop Mnemonic_new words wordsIndex rawBinaryChunks
       mn_wordsCount app].
  set (raw := BIP39.rawBinary_of
                (map (fun w => bitset.of_ullong 11 (Wordlist.findIndex wl w)) ws)).
  assert (Lraw : String.length raw = (11 * List.length ws)%nat).
  { subst raw. rewrite rawBinary_of_length, length_map. reflexivity. }
  rewrite substr_0. cbn [bind]. unfold substr.
  destruct (Nat.ltb_spec (String.length raw)
              (Z.to_nat (BIP39.m_entropyBits s))) as [Hshort | _]; [lia|].
  cbn [bind]. rewrite bits2hex_nonempty; [reflexivity|].
  apply length_nonempty. rewrite substring_0_length. lia.
Qed.

(** [reverse] on a vector of known words too short for the session: the
    second [substr] starts beyond the end of the bits and throws
    [std::out_of_range], not a [MnemonicException]. *)
Theorem reverse_short_vector (s : BIP39.t) (wl : Wordlist.t)
  (ws : list string) (verifyChecksum : bool) :
  BIP39.m_wordList s = Some wl ->
  Wordlist.empty wl = false ->
  Forall (fun w => In w (Wordlist.entries wl)) ws ->
  (11 * List.length ws < Z.to_nat (BIP39.m_entropyBits s))%nat ->
  BIP39.reverse sha256_Raw s ws verifyChecksum = Throw out_of_range.
Proof.
  intros Hwl Hne Hknown Hlen.
  unfold BIP39.reverse. rewrite Hwl, Hne.
  rewrite <- (app_nil_r ws) at 1.
  rewrite (reverse_loop_known wl ws [] Hknown).
  cbn [BIP39.reverse_loop Mnemonic_new words wordsIndex rawBinaryChunks
       mn_wordsCount app].
  rewrite substr_0. cbn [bind]. unfold substr.
  rewrite rawBinary_of_length, length_map.
  destruct (Nat.ltb_spec (11 * List.length ws)
              (Z.to_nat (BIP39.m_entropyBits s))); [reflexivity | lia].
Qed.

(** [Words] on a phrase with an accepted number of words that are all in a
    table that is not empty: the decoding reaches [bits2hex]. *)
Lemma Words_all_known (phrase : string) (wl : Wordlist.t)
  (verifyChecksum : bool) :
  valid_wordCount
    (BIP39.Words_wordCount (getline_words EmptyString phrase)) ->
  Wordlist.empty wl = false ->
  Forall (fun w => In w (Wordlist.entries wl))
         (getline_words EmptyString phrase) ->
  BIP39.Words sha256_Raw phrase (Some wl) verifyChecksum = Undefined.
Proof.
  set (ws := getline_words EmptyString phrase).
  intros Hv Hne Hknown.
  pose proof (BIP39_valid _ Hv) as Hs.
  match type of Hs with _ = Ok ?r => set (s := r) in Hs end.
  clearbody s.
  destruct (session_widths _ s Hs) as [_ [Hsum [Hcb [_ [Heb _]]]]].
  rewrite (Words_reverse sha256_Raw phrase wl verifyChecksum s Hs). fold ws.
  apply (reverse_all_known (with_wordList s wl) wl ws); try assumption;
    [reflexivity|].
  change (BIP39.m_entropyBits (with_wordList s wl))
    with (BIP39.m_entropyBits s).
  assert (Hle : BIP39.Words_wordCount ws <= Z.of_nat (List.length ws)).
  { apply Words_wordCount_le. destruct Hv as [Hr _]. lia. }
  lia.
Qed.

(** The outcomes of [Words], for every phrase, wordlist pointer and flag:
    a returned Mnemonic, a [MnemonicException], or undefined behaviour,
    never a standard exception.  The behaviour is undefined exactly when
    the decoding is complete: the pointer is not null, the number of words
    is accepted, the table is not empty and holds every word of the phrase;
    [reverse] then calls [bits2hex], which reads through the pointer into a
    destroyed temporary. *)
Theorem Words_outcome (phrase : string) (wordlist : option Wordlist.t)
  (verifyChecksum : bool) :
  ((exists m, BIP39.Words sha256_Raw phrase wordlist verifyChecksum = Ok m)
   \/ fails (BIP39.Words sha256_Raw phrase wordlist verifyChecksum)
   \/ BIP39.Words sha256_Raw phrase wordlist verifyChecksum = Undefined)
  /\ (BIP39.Words sha256_Raw phrase wordlist verifyChecksum = Undefined <->
      exists wl,
        wordlist = Some wl
        /\ valid_wordCount
             (BIP39.Words_wordCount (getline_words EmptyString phrase))
        /\ Wordlist.empty wl = false
        /\ Forall (fun w => In w (Wordlist.entries wl))
                  (getline_words EmptyString phrase)).
Proof.
  destruct wordlist as [wl|].
  2:{ split; [right; left; eexists; reflexivity|].
      split; [discriminate | intros [wl [H _]]; discriminate H]. }
  set (ws := getline_words EmptyString phrase).
  destruct (BIP39_outcome (BIP39.Words_wordCount ws)) as [[s Hs] | [what Hf]].
  2:{ assert (Hw : BIP39.Words sha256_Raw phrase (Some wl) verifyChecksum
                   = Throw (MnemonicException what)).
      { unfold BIP39.Words. fold ws. rewrite Hf. reflexivity. }
      rewrite Hw. split; [right; left; eexists; reflexivity|].
      split; [discriminate|]. intros [wl' [_ [Hv _]]].
      rewrite (BIP39_valid _ Hv) in Hf. discriminate Hf. }
  pose proof (BIP39_inv _ _ Hs) as Hv.
  destruct (Wordlist.empty wl) eqn:Hne.
  { assert (Hw : BIP39.Words sha256_Raw phrase (Some wl) verifyChecksum
                 = Throw (MnemonicException "Wordlist is empty")).
    { rewrite (Words_reverse sha256_Raw phrase wl verifyChecksum s Hs).
      unfold BIP39.reverse. cbn [BIP39.m_wordList with_wordList].
      rewrite Hne. reflexivity. }
    rewrite Hw. split; [right; left; eexists; reflexivity|].
    split; [discriminate|]. intros [wl' [E [_ [He _]]]].
    inversion E; subst wl'. rewrite Hne in He. discriminate He. }
  destruct (known_or_unknown (Wordlist.entries wl) ws)
    as [Hknown | [pre [w [post [E [Hpre Hw]]]]]].
  - rewrite (Words_all_known phrase wl verifyChecksum Hv Hne Hknown).
    split; [right; right; reflexivity|].
    split; [|intros _; reflexivity]. intros _. exists wl.
    split; [reflexivity|]. split; [exact Hv|]. split; [exact Hne|exact Hknown].
  - assert (HW : BIP39.Words sha256_Raw phrase (Some wl) verifyChecksum
                 = Ok (decoded_prefix wl pre)).
    { rewrite (Words_reverse sha256_Raw phrase wl verifyChecksum s Hs).
      unfold BIP39.reverse. cbn [BIP39.m_wordList with_wordList].
      fold ws. rewrite Hne, E.
      rewrite (reverse_loop_known wl pre (w :: post) Hpre).
      rewrite reverse_loop_unknown by exact Hw. reflexivity. }
    rewrite HW. split; [left; eexists; reflexivity|].
    split; [discriminate|]. intros [wl' [E' [_ [_ Hall]]]].
    inversion E'; subst wl'. fold ws in Hall. rewrite E in Hall.
    rewrite Forall_forall in Hall. exfalso. apply Hw, Hall.
    apply in_or_app. right. left. reflexivity.
Qed.

End Decoding.

(** [Words] at the canonical phrase of 128 zero bits. *)
Lemma Words_outcome_witness :
  BIP39.Words SHA256.digest phrase_zero (Some sample_wordlist) true
  = Undefined.
Proof.
  apply (proj2 (Words_outcome SHA256.digest phrase_zero
                  (Some sample_wordlist) true)).
  exists sample_wordlist. split; [reflexivity|]. split; [|split].
  - apply valid_wordCount_cases. vm_compute. tauto.
  - vm_compute. reflexivity.
  - apply known_check. vm_compute. reflexivity.
Defined.

(** ** Encoding, then decoding *)

Section RoundTrip.

Variable sha256_Raw : list byte -> list byte.
Variable english : Wordlist.t.
Hypothesis english_wf : wordlist_wf english.

(** C1, at the inputs where the code departs from it, which are all of
    them: for every hex entropy of one of the five bit lengths, [Entropy]
    returns a Mnemonic holding the entropy, and the decoding of the phrase
    of its words does not return: [reverse] finds every word, rebuilds the
    bits, and calls [bits2hex], whose first read goes through the [c_str()]
    pointer of a destroyed temporary.  The outcome is undefined behaviour,
    with and without the checksum test, not a Mnemonic whose entropy is the
    one that was encoded. *)
Theorem C1_decode_undefined (e : string) (verifyChecksum : bool) :
  hex_string e ->
  In (4 * strlen e) entropy_lengths ->
  exists m,
    BIP39.Entropy sha256_Raw english e = Ok m
    /\ entropy m = e
    /\ BIP39.Words sha256_Raw (phrase_of (words m)) (Some english)
         verifyChecksum = Undefined.
Proof.
  intros Hhex Hlen. apply isHex_hex_string in Hhex.
  pose proof (wordlist_not_empty english english_wf) as Hne.
  destruct (Entropy_returns_bits sha256_Raw english e Hhex Hlen Hne)
    as [wc [s [m [He [Hent [_ [Hs [_ [_ [Hw [Hidx [_ Hcount]]]]]]]]]]]].
  exists m. split; [exact He|]. split; [exact Hent|].
  destruct (getWord_chunks english english_wf (wordsIndex m) Hidx)
    as [Hknown [Hwords _]].
  rewrite <- Hw in Hknown, Hwords.
  pose proof (getline_words_phrase (words m) Hwords) as Hsplit.
  pose proof (BIP39_inv _ _ Hs) as Hv.
  apply Words_all_known; rewrite ?Hsplit; try assumption.
  rewrite Words_wordCount_small, Hcount; [exact Hv|].
  rewrite Hcount. destruct Hv as [Hr _]. lia.
Qed.

End RoundTrip.

(** C1 at the vector 7f7f...7f. *)
Lemma C1_decode_undefined_witness :
  exists m,
    BIP39.Entropy SHA256.digest sample_wordlist sample_entropy = Ok m
    /\ entropy m = sample_entropy
    /\ BIP39.Words SHA256.digest (phrase_of (words m)) (Some sample_wordlist)
         true = Undefined.
Proof.
  apply (C1_decode_undefined SHA256.digest sample_wordlist sample_wordlist_wf
           sample_entropy true).
  - apply isHex_hex_string. vm_compute. reflexivity.
  - vm_compute. tauto.
Defined.

(** A session of 24 words fed three known words. *)
Lemma reverse_short_vector_witness :
  BIP39.reverse SHA256.digest (with_wordList session_24 sample_wordlist)
    three_words true
  = Throw out_of_range.
Proof.
  apply (reverse_short_vector SHA256.digest
           (with_wordList session_24 sample_wordlist) sample_wordlist).
  - reflexivity.
  - vm_compute. reflexivity.
  - apply known_check. vm_compute. reflexivity.
  - vm_compute. lia.
Defined.

(** ** Chunks and their binary digits *)

Lemma append_inj (a b c d : string) :
  String.length a = String.length b ->
  a ++ c = b ++ d -> a = b /\ c = d.
Proof.
  revert b. induction a as [|x a IH]; intros b L H.
  - destruct b; [|discriminate L]. split; [reflexivity | exact H].
  - destruct b as [|y b]; [discriminate L|].
    cbn in H. inversion H; subst. cbn in L.
    destruct (IH b) as [-> ->]; [lia | assumption |]. split; reflexivity.
Qed.

Lemma to_string_testbit (n : nat) (a b : Z) :
  bitset.to_string n a = bitset.to_string n b ->
  forall k, 0 <= k < Z.of_nat n -> Z.testbit a k = Z.testbit b k.
Proof.
  induction n as [|n IH]; intros H k Hk; [lia|].
  cbn [bitset.to_string] in H. inversion H as [[Hbit Hrest]].
  destruct (Z.eq_dec k (Z.of_nat n)) as [-> | Hne].
  - destruct (Z.testbit a (Z.of_nat n)), (Z.testbit b (Z.of_nat n));
      first [reflexivity | discriminate Hbit].
  - apply IH; [exact Hrest | lia].
Qed.

Lemma to_string_inj (a b : Z) :
  is_WordIndex a -> is_WordIndex b ->
  bitset.to_string 11 a = bitset.to_string 11 b -> a = b.
Proof.
  unfold is_WordIndex. intros Ha Hb H.
  rewrite <- (Z.mod_small a (2 ^ 11)), <- (Z.mod_small b (2 ^ 11))
    by (change (2 ^ 11) with 2048; lia).
  apply Z.bits_inj'. intros k Hk.
  destruct (Z.lt_ge_cases k 11) as [Hlo | Hhi].
  - rewrite !Z.mod_pow2_bits_low by lia.
    apply (to_string_testbit 11 a b H). lia.
  - rewrite !Z.mod_pow2_bits_high by lia. reflexivity.
Qed.

Lemma rawBinary_of_inj (l l' : list Z) :
  Forall is_WordIndex l -> Forall is_WordIndex l' ->
  BIP39.rawBinary_of l = BIP39.rawBinary_of l' -> l = l'.
Proof.
  intros Hl. revert l'. induction Hl as [|a l Ha Hl IH]; intros l' Hl' H.
  - destruct l' as [|b l']; [reflexivity|].
    cbn in H. discriminate H.
  - destruct l' as [|b l']; [cbn in H; discriminate H|].
    inversion Hl' as [|? ? Hb Hl'']; subst.
    cbn [BIP39.rawBinary_of] in H.
    apply append_inj in H; [|rewrite !to_string_length; reflexivity].
    destruct H as [Hh Ht].
    f_equal; [apply to_string_inj; assumption | apply IH; assumption].
Qed.

(** ** The phrase and its spaces *)

Lemma getline_words_separator (ws : list string) :
  Forall (fun w => is_word w = true) ws -> ws <> [] ->
  forall rest,
    getline_words EmptyString (phrase_of ws ++ String " " rest)
    = (ws ++ getline_words EmptyString rest)%list.
Proof.
  unfold phrase_of. induction 1 as [|x r Hx Hr IH]; intros Hne rest;
    [contradiction|].
  unfold is_word in Hx. apply andb_true_iff in Hx. destruct Hx as [_ Hsp].
  destruct r as [|y r'].
  - cbn [String.concat app].
    rewrite (getline_words_word x Hsp). cbn [append getline_words].
    reflexivity.
  - change (String.concat " " (x :: y :: r'))
      with (x ++ String " " (String.concat " " (y :: r'))).
    rewrite append_assoc. cbn [append].
    rewrite (getline_words_word x Hsp). cbn [append getline_words].
    cbn [Ascii.eqb Bool.eqb]. cbn [app]. f_equal.
    apply IH. discriminate.
Qed.

Section Spaces.

Variable sha256_Raw : list byte -> list byte.

(** The splitting of the phrase in [Words]: words that are not empty and
    hold no space, written with one space between them, are read back as
    they are, and one space after the last word changes nothing: [Words]
    gives the same outcome with and without it. *)
Theorem Words_phrase_split (ws : list string)
  (wordlist : option Wordlist.t) (verifyChecksum : bool) :
  Forall (fun w => is_word w = true) ws -> ws <> [] ->
  getline_words EmptyString (phrase_of ws) = ws
  /\ getline_words EmptyString (phrase_of ws ++ " ") = ws
  /\ BIP39.Words sha256_Raw (phrase_of ws ++ " ") wordlist verifyChecksum
     = BIP39.Words sha256_Raw (phrase_of ws) wordlist verifyChecksum.
Proof.
  intros Hw Hne.
  assert (H1 : getline_words EmptyString (phrase_of ws) = ws)
    by (apply getline_words_phrase; exact Hw).
  assert (H2 : getline_words EmptyString (phrase_of ws ++ " ") = ws).
  { rewrite (getline_words_separator ws Hw Hne EmptyString).
    cbn [getline_words]. apply app_nil_r. }
  split; [exact H1|]. split; [exact H2|].
  unfold BIP39.Words. rewrite H1, H2. reflexivity.
Qed.

(** Two spaces between two words make an empty word: a phrase that would
    have an accepted number of words, written with one doubled space, has
    one word more, and [Words] throws on the word count. *)
Theorem Words_double_space (ws1 ws2 : list string)
  (wordlist : option Wordlist.t) (verifyChecksum : bool) :
  Forall (fun w => is_word w = true) ws1 -> ws1 <> [] ->
  Forall (fun w => is_word w = true) ws2 ->
  valid_wordCount (Z.of_nat (List.length (ws1 ++ ws2))) ->
  getline_words EmptyString (phrase_of ws1 ++ "  " ++ phrase_of ws2)
  = (ws1 ++ EmptyString :: ws2)%list
  /\ fails (BIP39.Words sha256_Raw (phrase_of ws1 ++ "  " ++ phrase_of ws2)
              wordlist verifyChecksum).
Proof.
  intros H1 Hne H2 Hv.
  assert (Hsplit : getline_words EmptyString
                     (phrase_of ws1 ++ "  " ++ phrase_of ws2)
                   = (ws1 ++ EmptyString :: ws2)%list).
  { change ("  " ++ phrase_of ws2)
      with (String " " (String " " (phrase_of ws2))).
    rewrite (getline_words_separator ws1 H1 Hne).
    cbn [getline_words Ascii.eqb Bool.eqb].
    rewrite (getline_words_phrase ws2 H2). reflexivity. }
  split; [exact Hsplit|].
  unfold BIP39.Words. destruct wordlist; [|eexists; reflexivity].
  apply bind_fails. rewrite Hsplit. apply BIP39_invalid.
  rewrite length_app in Hv.
  rewrite Words_wordCount_small
    by (rewrite length_app; cbn [List.length]; destruct Hv as [Hr _]; lia).
  rewrite length_app. cbn [List.length].
  rewrite valid_wordCount_cases in *. lia.
Qed.

End Spaces.

Lemma Words_phrase_split_witness :
  BIP39.Words SHA256.digest (phrase_of three_words ++ " ")
    (Some sample_wordlist) true
  = BIP39.Words SHA256.digest (phrase_of three_words)
      (Some sample_wordlist) true.
Proof.
  refine (proj2 (proj2 (Words_phrase_split SHA256.digest three_words
                          (Some sample_wordlist) true _ _))).
  - apply Forall_forall. apply forallb_forall. vm_compute. reflexivity.
  - discriminate.
Defined.

Lemma Words_double_space_witness :
  fails (BIP39.Words SHA256.digest
           (phrase_of six_words ++ "  " ++ phrase_of six_words)
           (Some sample_wordlist) true).
Proof.
  refine (proj2 (Words_double_space SHA256.digest six_words six_words
                   (Some sample_wordlist) true _ _ _ _)).
  - apply Forall_forall. apply forallb_forall. vm_compute. reflexivity.
  - discriminate.
  - apply Forall_forall. apply forallb_forall. vm_compute. reflexivity.
  - apply valid_wordCount_cases. vm_compute. tauto.
Defined.

(** ** The session as a builder *)

Section Builder.

Variable sha256_Raw : list byte -> list byte.

(** The checksum of a session built by the constructor: a string of
    binary digits, as many as [m_checksumBits], which is a 32nd of
    [m_entropyBits], whatever the entropy string. *)
Theorem checksum_width (wordCount : Z) (s : BIP39.t) (entropy : string) :
  BIP39.BIP39 wordCount = Ok s ->
  binary (BIP39.checksum sha256_Raw s entropy)
  /\ strlen (BIP39.checksum sha256_Raw s entropy) = BIP39.m_checksumBits s
  /\ BIP39.m_checksumBits s = BIP39.m_entropyBits s / 32.
Proof.
  intros H. split; [apply checksum_binary|].
  split; [apply (checksum_length sha256_Raw wordCount); exact H|].
  pose proof (BIP39_inv _ _ H) as Hv.
  rewrite (BIP39_valid _ Hv) in H. inversion H; subst s; clear H.
  apply valid_wordCount_cases in Hv.
  each_wordCount Hv; reflexivity.
Qed.

(** Binding the table and giving the entropy commute: on every session,
    [wordList] followed by [useEntropy] has the outcome of [useEntropy]
    followed by [wordList]. *)
Theorem wordList_useEntropy_commute (s : BIP39.t) (wl : Wordlist.t)
  (entropy : string) :
  (s1 <- BIP39.wordList s (Some wl) ;; BIP39.useEntropy sha256_Raw s1 entropy)
  = (s1 <- BIP39.useEntropy sha256_Raw s entropy ;;
     BIP39.wordList s1 (Some wl)).
Proof.
  cbn [bind BIP39.wordList]. unfold BIP39.useEntropy.
  destruct (BIP39.validateEntropy entropy); cbn [negb bind]; [|reflexivity].
  rewrite (checksum_ext sha256_Raw _ s entropy) by reflexivity.
  cbn [BIP39.m_rawBinaryChunks BIP39.m_wordsCount BIP39.m_overallBits
       BIP39.m_checksumBits BIP39.m_entropyBits BIP39.m_wordList].
  destruct (BIP39.useEntropy_loop _ _ _ _); reflexivity.
Qed.

(** [useEntropy] appends: a second call on the session it returned keeps
    the chunks of the first and adds its own.  On a session fresh from the
    constructor, two entropies of the bit length of the session lead
    [mnemonic] to twice the word count of the session, with the entropy of
    the second call. *)
Theorem useEntropy_twice (wordCount : Z) (s : BIP39.t) (e1 e2 : string)
  (wl : Wordlist.t) :
  BIP39.BIP39 wordCount = Ok s ->
  BIP39_Utils.isHex e1 = true -> BIP39_Utils.isHex e2 = true ->
  4 * strlen e1 = BIP39.m_entropyBits s ->
  4 * strlen e2 = BIP39.m_entropyBits s ->
  Wordlist.empty wl = false ->
  exists m,
    (s1 <- BIP39.useEntropy sha256_Raw s e1 ;;
     s2 <- BIP39.useEntropy sha256_Raw s1 e2 ;;
     s3 <- BIP39.wordList s2 (Some wl) ;;
     BIP39.mnemonic s3) = Ok m
    /\ mn_wordsCount m = 2 * wordCount
    /\ entropy m = e2
    /\ BIP39.rawBinary_of (wordsIndex m)
       = (BIP39.hex2bits e1 ++ BIP39.checksum sha256_Raw s e1)
         ++ (BIP39.hex2bits e2 ++ BIP39.checksum sha256_Raw s e2).
Proof.
  intros Hs Hh1 Hh2 Hb1 Hb2 Hwl.
  destruct (session_widths _ s Hs) as [Ht [Hsum [Hcb [Hmod [Heb [_ Hfresh]]]]]].
  assert (Hlens : In (BIP39.m_entropyBits s) entropy_lengths).
  { unfold width_table in Ht. unfold entropy_lengths. cbn [In] in *.
    repeat (destruct Ht as [Ht | Ht]; [inversion Ht; lia|]). contradiction. }
  assert (Hv1 : BIP39.validateEntropy e1 = true).
  { apply validateEntropy_spec; [lia|]. split; [exact Hh1|].
    rewrite Hb1. exact Hlens. }
  assert (Hv2 : BIP39.validateEntropy e2 = true).
  { apply validateEntropy_spec; [lia|]. split; [exact Hh2|].
    rewrite Hb2. exact Hlens. }
  pose proof (checksum_length sha256_Raw wordCount s e1 Hs) as Hc1.
  pose proof (checksum_length sha256_Raw wordCount s e2 Hs) as Hc2.
  unfold strlen in Hb1, Hb2, Hc1, Hc2.
  destruct (useEntropy_chunks sha256_Raw s e1 Hv1) as [v1 [Hu1 [Hn1 [_ Hr1]]]].
  rewrite Hfresh in Hu1. cbn [app] in Hu1. rewrite Hu1. cbn [bind].
  match type of Hu1 with _ = Ok ?r => set (s1 := r) in * end.
  destruct (useEntropy_chunks sha256_Raw s1 e2 Hv2) as [v2 [Hu2 [Hn2 [_ Hr2]]]].
  rewrite (checksum_ext sha256_Raw s1 s e2) in Hu2, Hn2, Hr2 by reflexivity.
  rewrite Hu2. cbn [bind BIP39.wordList]. unfold BIP39.mnemonic.
  cbn [BIP39.m_entropy BIP39.m_wordList BIP39.m_rawBinaryChunks s1].
  destruct (String.eqb_spec e2 EmptyString) as [E | _];
    [exfalso; exact (validateEntropy_nonempty _ Hv2 E)|].
  rewrite Hwl, mnemonic_fold. eexists. split; [reflexivity|].
  cbn [words wordsIndex rawBinaryChunks mn_wordsCount app].
  assert (L1 : List.length v1 = Z.to_nat wordCount).
  { rewrite Hn1.
    replace (4 * String.length e1
             + String.length (BIP39.checksum sha256_Raw s e1) + 10)%nat
      with (10 + Z.to_nat wordCount * 11)%nat by lia.
    rewrite Nat.div_add by lia. reflexivity. }
  assert (L2 : List.length v2 = Z.to_nat wordCount).
  { rewrite Hn2.
    replace (4 * String.length e2
             + String.length (BIP39.checksum sha256_Raw s e2) + 10)%nat
      with (10 + Z.to_nat wordCount * 11)%nat by lia.
    rewrite Nat.div_add by lia. reflexivity. }
  split; [rewrite length_app; lia|]. split; [reflexivity|].
  assert (Happ : forall a b,
             BIP39.rawBinary_of (a ++ b)
             = BIP39.rawBinary_of a ++ BIP39.rawBinary_of b).
  { intros a b. induction a as [|x a IH]; [reflexivity|].
    cbn [app BIP39.rawBinary_of]. rewrite IH, append_assoc. reflexivity. }
  rewrite Happ, Hr1, Hr2; [reflexivity | |].
  - replace (4 * String.length e2
             + String.length (BIP39.checksum sha256_Raw s e2))%nat
      with (0 + Z.to_nat wordCount * 11)%nat by lia.
    apply Nat.Div0.mod_add.
  - replace (4 * String.length e1
             + String.length (BIP39.checksum sha256_Raw s e1))%nat
      with (0 + Z.to_nat wordCount * 11)%nat by lia.
    apply Nat.Div0.mod_add.
Qed.

(** The outcomes of [mnemonic] on any session state: without entropy it
    throws "Entropy is empty"; with entropy and no table bound it runs into
    undefined behaviour; with an empty table it throws "Wordlist is empty";
    otherwise it returns the entropy of the session, its chunks as chunks
    and as indices, the table entries at these indices as words, and their
    number as word count. *)
Theorem mnemonic_outcome (s : BIP39.t) :
  (BIP39.m_entropy s = EmptyString ->
   BIP39.mnemonic s = Throw (MnemonicException "Entropy is empty"))
  /\ (BIP39.m_entropy s <> EmptyString -> BIP39.m_wordList s = None ->
      BIP39.mnemonic s = Undefined)
  /\ (forall wl,
      BIP39.m_entropy s <> EmptyString -> BIP39.m_wordList s = Some wl ->
      Wordlist.empty wl = true ->
      BIP39.mnemonic s = Throw (MnemonicException "Wordlist is empty"))
  /\ (forall wl,
      BIP39.m_entropy s <> EmptyString -> BIP39.m_wordList s = Some wl ->
      Wordlist.empty wl = false ->
      BIP39.mnemonic s
      = Ok {| words := map (Wordlist.getWord wl) (BIP39.m_rawBinaryChunks s);
              wordsIndex := BIP39.m_rawBinaryChunks s;
              rawBinaryChunks := BIP39.m_rawBinaryChunks s;
              entropy := BIP39.m_entropy s;
              mn_wordsCount :=
                Z.of_nat (List.length (BIP39.m_rawBinaryChunks s)) |}).
Proof.
  split; [apply mnemonic_entropy_unbound|].
  split; [apply mnemonic_wordlist_unbound|].
  split; intros wl He Hw Hwl; unfold BIP39.mnemonic;
    (destruct (String.eqb_spec (BIP39.m_entropy s) EmptyString) as [E | _];
     [contradiction|]); rewrite Hw, Hwl; [reflexivity|].
  rewrite mnemonic_fold. reflexivity.
Qed.

End Builder.

Lemma checksum_width_witness :
  strlen (BIP39.checksum SHA256.digest session_12 zero_entropy) = 4.
Proof.
  refine (proj1 (proj2 (checksum_width SHA256.digest 12 session_12
                          zero_entropy _))).
  reflexivity.
Defined.

Lemma useEntropy_twice_witness :
  exists m,
    (s1 <- BIP39.useEntropy SHA256.digest session_12 zero_entropy ;;
     s2 <- BIP39.useEntropy SHA256.digest s1 sample_entropy ;;
     s3 <- BIP39.wordList s2 (Some sample_wordlist) ;;
     BIP39.mnemonic s3) = Ok m
    /\ mn_wordsCount m = 24
    /\ entropy m = sample_entropy.
Proof.
  destruct (useEntropy_twice SHA256.digest 12 session_12 zero_entropy
              sample_entropy sample_wordlist)
    as [m [H [Hc [He _]]]]; try (vm_compute; reflexivity).
  exists m. repeat split; assumption.
Defined.

Lemma mnemonic_outcome_witness :
  BIP39.mnemonic session_12 = Throw (MnemonicException "Entropy is empty")
  /\ BIP39.mnemonic (with_wordList session_12 (Wordlist.mk []))
     = Throw (MnemonicException "Entropy is empty").
Proof.
  split.
  - apply (proj1 (mnemonic_outcome session_12)). reflexivity.
  - apply (proj1 (mnemonic_outcome
                    (with_wordList session_12 (Wordlist.mk [])))).
    reflexivity.
Defined.

(** ** [Generate] *)

Lemma hex_of_byte_hex (c : ascii) :
  BIP39_Utils.isHex (BIP39_Utils.hex_of_byte c) = true
  /\ String.length (BIP39_Utils.hex_of_byte c) = 2%nat.
Proof. each_ascii c; split; reflexivity. Qed.

Lemma isHex_app (a b : string) :
  BIP39_Utils.isHex (a ++ b)
  = BIP39_Utils.isHex a && BIP39_Utils.isHex b.
Proof.
  unfold BIP39_Utils.isHex. induction a as [|x a IH]; cbn; [reflexivity|].
  rewrite IH, andb_assoc. reflexivity.
Qed.

Lemma base16Encode_hex (bytes : string) :
  BIP39_Utils.isHex (BIP39_Utils.base16Encode bytes) = true
  /\ String.length (BIP39_Utils.base16Encode bytes)
     = (2 * String.length bytes)%nat.
Proof.
  induction bytes as [|c r [IH1 IH2]]; [split; reflexivity|].
  destruct (hex_of_byte_hex c) as [H1 H2].
  cbn [BIP39_Utils.base16Encode String.length].
  rewrite isHex_app, H1, IH1, length_append, H2, IH2. split; [reflexivity|lia].
Qed.

Lemma c_string_length (buffer bin_rand : string) :
  c_string buffer = Ok bin_rand ->
  (String.length bin_rand < String.length buffer)%nat.
Proof.
  revert bin_rand. induction buffer as [|c r IH]; intros bin_rand H;
    [discriminate H|].
  cbn [c_string] in H. destruct (Ascii.eqb c zero).
  - inversion H; subst. cbn. lia.
  - destruct (c_string r) as [t| |]; cbn [bind] in H; try discriminate H.
    inversion H; subst. specialize (IH t eq_refl). cbn. lia.
Qed.

Lemma c_string_no_zero (buffer : string) :
  BIP39_Utils.all_of (fun c => negb (Ascii.eqb c zero)) buffer = true ->
  c_string buffer = Undefined.
Proof.
  induction buffer as [|c r IH]; intros H; [reflexivity|].
  cbn in H. apply andb_true_iff in H. destruct H as [Hc Hr].
  cbn [c_string]. destruct (Ascii.eqb c zero); [discriminate Hc|].
  rewrite (IH Hr). reflexivity.
Qed.

Section Generation.

Variable sha256_Raw : list byte -> list byte.
Variable english : Wordlist.t.
Variable random_buffer : Z -> string.

(** [Generate] on a buffer without a zero byte: when none of the
    [entropyBits / 8] bytes of the buffer is zero, the construction of
    [bin_rand] reads behind the buffer, and the outcome of [Generate] is
    undefined behaviour. *)
Theorem Generate_unterminated (wordCount : Z) (s : BIP39.t) :
  BIP39.BIP39 wordCount = Ok s ->
  BIP39_Utils.all_of (fun c => negb (Ascii.eqb c zero))
    (substring 0 (Z.to_nat (BIP39.m_entropyBits s / 8))
       (random_buffer (BIP39.m_entropyBits s / 8))) = true ->
  BIP39.Generate sha256_Raw english random_buffer wordCount = Undefined.
Proof.
  intros Hs Hnz. unfold BIP39.Generate. rewrite Hs. cbn [bind].
  unfold BIP39.generateSecureEntropy.
  rewrite (c_string_no_zero _ Hnz). reflexivity.
Qed.

(** [Generate] on a buffer with a zero byte: when [bin_rand] stops at a
    zero byte of the buffer and has a number of characters that is not 16,
    20, 24, 28 or 32, [Generate] throws "Invalid Entropy: " followed by the
    hex digits of [bin_rand]. *)
Theorem Generate_short_buffer (wordCount : Z) (s : BIP39.t)
  (bin_rand : string) :
  BIP39.BIP39 wordCount = Ok s ->
  c_string (substring 0 (Z.to_nat (BIP39.m_entropyBits s / 8))
              (random_buffer (BIP39.m_entropyBits s / 8))) = Ok bin_rand ->
  ~ In (8 * strlen bin_rand) entropy_lengths ->
  BIP39.Generate sha256_Raw english random_buffer wordCount
  = Throw (MnemonicException
             ("Invalid Entropy: " ++ BIP39_Utils.base16Encode bin_rand)).
Proof.
  intros Hs Hc Hout.
  set (hex := BIP39_Utils.base16Encode bin_rand).
  destruct (base16Encode_hex bin_rand) as [Hhex Hlen]. fold hex in Hhex, Hlen.
  pose proof (c_string_length _ _ Hc) as Hshort.
  rewrite substring_0_length in Hshort.
  pose proof (Nat.le_min_l (Z.to_nat (BIP39.m_entropyBits s / 8))
                (String.length (random_buffer (BIP39.m_entropyBits s / 8))))
    as Hmin.
  assert (Hsize : 8 * Z.of_nat (String.length bin_rand) + 8
                  <= BIP39.m_entropyBits s)
    by (Z.div_mod_to_equations; lia).
  clear Hshort Hmin.
  destruct (session_widths _ s Hs) as [_ [_ [_ [_ [Heb _]]]]].
  assert (Hv : BIP39.validateEntropy hex = false).
  { destruct (BIP39.validateEntropy hex) eqn:E; [|reflexivity].
    exfalso. apply Hout.
    apply validateEntropy_spec in E; [|unfold strlen in *; lia].
    destruct E as [_ E].
    replace (8 * strlen bin_rand) with (4 * strlen hex)
      by (unfold strlen in *; lia).
    exact E. }
  unfold BIP39.Generate. rewrite Hs. cbn [bind].
  unfold BIP39.generateSecureEntropy. rewrite Hc. cbn [bind].
  unfold BIP39.useEntropy. fold hex. rewrite Hv. reflexivity.
Qed.

(** [Generate] never returns the number of words it was asked for: when
    [Generate(wordCount)] returns a Mnemonic, [bin_rand] stopped at a zero
    byte of the buffer after 16, 20, 24 or 28 characters, fewer than the
    session asked for; the Mnemonic holds their hex digits as entropy, the
    word count asked for was at least 15, and the Mnemonic has at least two
    words fewer. *)
Theorem Generate_word_count (wordCount : Z) (m : Mnemonic) :
  BIP39.Generate sha256_Raw english random_buffer wordCount = Ok m ->
  15 <= wordCount
  /\ mn_wordsCount m <= wordCount - 2
  /\ exists s bin_rand,
       BIP39.BIP39 wordCount = Ok s
       /\ c_string (substring 0 (Z.to_nat (BIP39.m_entropyBits s / 8))
                      (random_buffer (BIP39.m_entropyBits s / 8)))
          = Ok bin_rand
       /\ entropy m = BIP39_Utils.base16Encode bin_rand
       /\ In (8 * strlen bin_rand) entropy_lengths
       /\ 8 * strlen bin_rand < BIP39.m_entropyBits s.
Proof.
  intros H. unfold BIP39.Generate in H.
  destruct (BIP39_outcome wordCount) as [[s Hs] | [what Hf]];
    [|rewrite Hf in H; discriminate H].
  rewrite Hs in H. cbn [bind] in H.
  unfold BIP39.generateSecureEntropy in H.
  destruct (c_string (substring 0 (Z.to_nat (BIP39.m_entropyBits s / 8))
                        (random_buffer (BIP39.m_entropyBits s / 8))))
    as [bin_rand| |] eqn:Hc; cbn [bind] in H; try discriminate H.
  set (hex := BIP39_Utils.base16Encode bin_rand) in *.
  destruct (base16Encode_hex bin_rand) as [Hhex Hlen]. fold hex in Hhex, Hlen.
  pose proof (c_string_length _ _ Hc) as Hshort.
  rewrite substring_0_length in Hshort.
  pose proof (Nat.le_min_l (Z.to_nat (BIP39.m_entropyBits s / 8))
                (String.length (random_buffer (BIP39.m_entropyBits s / 8))))
    as Hmin.
  assert (Hsize : 8 * Z.of_nat (String.length bin_rand) + 8
                  <= BIP39.m_entropyBits s)
    by (Z.div_mod_to_equations; lia).
  clear Hshort Hmin.
  destruct (session_widths _ s Hs) as [Ht [Hsum [Hcb [_ [Heb [_ Hfresh]]]]]].
  destruct (BIP39.validateEntropy hex) eqn:Hv.
  2:{ unfold BIP39.useEntropy in H. rewrite Hv in H. discriminate H. }
  destruct (useEntropy_chunks sha256_Raw s hex Hv) as [vs [Hu [Hn _]]].
  pose proof (checksum_length sha256_Raw wordCount s hex Hs) as Hcs.
  rewrite Hu in H. cbn [bind BIP39.wordList] in H.
  unfold BIP39.mnemonic in H.
  cbn [BIP39.m_entropy BIP39.m_wordList BIP39.m_rawBinaryChunks] in H.
  destruct (String.eqb_spec hex EmptyString) as [E | _];
    [exfalso; exact (validateEntropy_nonempty _ Hv E)|].
  destruct (Wordlist.empty english); [discriminate H|].
  rewrite mnemonic_fold, Hfresh in H. inversion H; subst m; clear H.
  cbn [mn_wordsCount entropy app].
  apply validateEntropy_spec in Hv; [|unfold strlen in *; lia].
  destruct Hv as [_ Hin].
  assert (Hin8 : In (8 * strlen bin_rand) entropy_lengths).
  { replace (8 * strlen bin_rand) with (4 * strlen hex)
      by (unfold strlen in *; lia). exact Hin. }
  assert (Hlt : 8 * strlen bin_rand < BIP39.m_entropyBits s).
  { unfold strlen. unfold width_table in Ht. cbn [In] in Ht.
    repeat (destruct Ht as [Ht | Ht]; [inversion Ht; lia|]).
    contradiction. }
  assert (Hstep : 8 * strlen bin_rand + 32 <= BIP39.m_entropyBits s).
  { unfold width_table in Ht. unfold entropy_lengths in Hin8.
    cbn [In] in Ht, Hin8.
    repeat (destruct Ht as [Ht | Ht]; [inversion Ht; lia|]).
    contradiction. }
  unfold strlen in *.
  split; [|split].
  - unfold width_table in Ht. unfold entropy_lengths in Hin8.
    cbn [In] in Ht, Hin8.
    repeat (destruct Ht as [Ht | Ht]; [inversion Ht; lia|]).
    contradiction.
  - rewrite Hn, Nat2Z.inj_div.
    apply Z.div_le_upper_bound; lia.
  - exists s, bin_rand. repeat split; try assumption; try reflexivity.
Qed.

End Generation.

(** [Generate(12)] on sixteen bytes, none of them zero. *)
Lemma Generate_unterminated_witness :
  BIP39.Generate SHA256.digest sample_wordlist buffer_no_zero 12 = Undefined.
Proof.
  apply (Generate_unterminated SHA256.digest sample_wordlist buffer_no_zero
           12 session_12); reflexivity.
Defined.

(** [Generate(12)] on a buffer whose fourth byte is zero. *)
Lemma Generate_short_buffer_witness :
  BIP39.Generate SHA256.digest sample_wordlist buffer_zero_at_3 12
  = Throw (MnemonicException "Invalid Entropy: 616263").
Proof.
  apply (Generate_short_buffer SHA256.digest sample_wordlist buffer_zero_at_3
           12 session_12 "abc").
  - reflexivity.
  - reflexivity.
  - vm_compute. intros H.
    repeat (destruct H as [H | H]; [discriminate H|]). exact H.
Defined.

(** [Generate(15)] on twenty bytes with a zero byte after the sixteenth:
    a Mnemonic of 13 words. *)
Lemma Generate_word_count_witness :
  exists m,
    BIP39.Generate SHA256.digest sample_wordlist buffer_zero_at_16 15 = Ok m
    /\ mn_wordsCount m = 13
    /\ mn_wordsCount m <= 15 - 2.
Proof.
  eexists. split; [vm_compute; reflexivity|]. split; [reflexivity|].
  refine (proj1 (proj2 (Generate_word_count SHA256.digest sample_wordlist
                          buffer_zero_at_16 15 _ _))).
  vm_compute. reflexivity.
Defined.

(** ** The case of the hex digits *)

Lemma hex_char_to_bin_tolower (c : ascii) :
  BIP39_Utils.hex_char_to_bin (tolower c) = BIP39_Utils.hex_char_to_bin c
  /\ BIP39_Utils.is_hex_digit (tolower c) = BIP39_Utils.is_hex_digit c.
Proof. each_ascii c; split; reflexivity. Qed.

Lemma lowercase_hex (hex : string) :
  BIP39.hex2bits (lowercase hex) = BIP39.hex2bits hex
  /\ BIP39_Utils.isHex (lowercase hex) = BIP39_Utils.isHex hex
  /\ String.length (lowercase hex) = String.length hex.
Proof.
  unfold BIP39_Utils.isHex.
  induction hex as [|c r [IH1 [IH2 IH3]]]; [repeat split|].
  destruct (hex_char_to_bin_tolower c) as [H1 H2].
  cbn [lowercase BIP39.hex2bits BIP39_Utils.all_of String.length].
  rewrite H1, H2, IH1, IH2, IH3. repeat split.
Qed.

Section Case.

Variable sha256_Raw : list byte -> list byte.
Variable english : Wordlist.t.

(** The words do not depend on the case of the hex digits: for a hex
    entropy of one of the five bit lengths, [Entropy] on the entropy and on
    its lower-case form return the same words, indices, chunks and word
    count; the two Mnemonics differ in the entropy they hold, each the
    string that was given. *)
Theorem Entropy_case_insensitive (e : string) :
  BIP39_Utils.isHex e = true ->
  In (4 * strlen e) entropy_lengths ->
  Wordlist.empty english = false ->
  exists m m',
    BIP39.Entropy sha256_Raw english e = Ok m
    /\ BIP39.Entropy sha256_Raw english (lowercase e) = Ok m'
    /\ words m' = words m
    /\ wordsIndex m' = wordsIndex m
    /\ rawBinaryChunks m' = rawBinaryChunks m
    /\ mn_wordsCount m' = mn_wordsCount m
    /\ entropy m = e
    /\ entropy m' = lowercase e.
Proof.
  intros Hhex Hlen Hwl.
  destruct (lowercase_hex e) as [Hbits [Hhex' Hl]].
  rewrite Hhex in Hhex'.
  assert (Hlen' : In (4 * strlen (lowercase e)) entropy_lengths)
    by (unfold strlen; rewrite Hl; exact Hlen).
  destruct (Entropy_returns_bits sha256_Raw english e Hhex Hlen Hwl)
    as [wc [s [m [He [Hent [Ht [Hs [Hraw [Hc [Hw [Hi [Hn _]]]]]]]]]]]].
  destruct (Entropy_returns_bits sha256_Raw english (lowercase e) Hhex' Hlen' Hwl)
    as [wc' [s' [m' [He' [Hent' [Ht' [Hs' [Hraw' [Hc' [Hw' [Hi' [Hn' _]]]]]]]]]]]].
  unfold strlen in Ht'. rewrite Hl in Ht'. fold (strlen e) in Ht'.
  assert (E : wc' = wc) by (eapply width_table_right_unique; eassumption).
  rewrite E in Hs', Hn'. rewrite Hs in Hs'. inversion Hs'; subst s'.
  rewrite Hbits, checksum_lowercase, <- Hraw in Hraw'.
  apply rawBinary_of_inj in Hraw'; [|assumption|assumption].
  exists m, m'. split; [exact He|]. split; [exact He'|].
  rewrite Hw', Hw, Hc', Hc, Hraw', Hn', Hn. repeat split; assumption.
Qed.

End Case.

Lemma Entropy_case_insensitive_witness :
  exists m m',
    BIP39.Entropy SHA256.digest sample_wordlist mixed_case_entropy = Ok m
    /\ BIP39.Entropy SHA256.digest sample_wordlist
         (lowercase mixed_case_entropy) = Ok m'
    /\ words m' = words m.
Proof.
  destruct (Entropy_case_insensitive SHA256.digest sample_wordlist
              mixed_case_entropy)
    as [m [m' [H [H' [Hw _]]]]];
    [vm_compute; reflexivity | vm_compute; tauto | vm_compute; reflexivity |].
  exists m, m'. repeat split; assumption.
Defined.
